(** * Lie algebra category methods and subfield subcodes

    A shallow embedding of the decision logic of
    [sage/categories/lie_algebras.py] (the [ParentMethods] [bracket],
    [is_abelian], [is_commutative] and [bch]) and of
    [sage/coding/subfield_subcode.py] (the constructor, [__eq__] and the two
    dimension bounds), together with the properties these methods are
    documented to have.

    Python exceptions are values of [Py.exn]; a method that may raise
    returns a [Py.result].  The algebraic substrate (element arithmetic, the
    element constructor, the methods of operand objects, the BCH term
    generator, the finite fields and the linear codes) is not part of the two
    files: it enters as record fields and section variables. *)

From Stdlib Require Import ZArith List String Bool Lia.
Import ListNotations.
Local Open Scope string_scope.
Local Open Scope list_scope.
Local Open Scope Z_scope.

Set Implicit Arguments.

(* ------------------------------------------------------------------ *)
(** ** Python outcomes *)

Module Py.

(** The exception classes the two files raise or let through. *)
Inductive exn : Type :=
| ValueError (msg : string)
| TypeError (msg : string)
| NotImplementedError (msg : string).

(** What a call produces: a value, an exception, or no answer within the
    number of loop iterations the evaluation was given. *)
Inductive result (A : Type) : Type :=
| Ok (a : A)
| Raise (e : exn)
| Unfinished.

Arguments Ok {A} a.
Arguments Raise {A} e.
Arguments Unfinished {A}.

Definition bind {A B : Type} (r : result A) (k : A -> result B) : result B :=
match r with
| Ok a => k a
| Raise e => Raise e
| Unfinished => Unfinished
end.

Definition raises {A : Type} (r : result A) : Prop :=
exists e, r = Raise e.

(** [range(n)] for an integer [n]: empty when [n <= 0]. *)
Definition range (n : Z) : list Z :=
map Z.of_nat (seq 0 (Z.to_nat n)).

End Py.

Import Py.

Notation "x <- r ;; k" := (Py.bind r (fun x => k))
  (at level 61, r at next level, right associativity).

(* ------------------------------------------------------------------ *)
(** ** The category of Lie algebras: [ParentMethods] *)

Module LieAlgebras.

(** A family of generators as [lie_algebra_generators()] returns it.  The
    only thing [is_abelian] asks of it is whether it lies in
    [FiniteEnumeratedSets()], in which case iterating over it yields a finite
    list; any other object (an infinite family, or a plain tuple that carries
    no category) is never iterated by the method. *)
Inductive Family (E : Type) : Type :=
| FiniteEnumerated (items : list E)
| NotKnownFinite (item : nat -> option E).

Arguments FiniteEnumerated {E} items.
Arguments NotKnownFinite {E} item.

Definition in_FiniteEnumeratedSets {E : Type} (G : Family E) : bool :=
match G with
| FiniteEnumerated _ => true
| NotKnownFinite _ => false
end.

(** The operands [bracket] may receive: an element of [self], an integer
    literal, an object whose category is a subcategory of [LieAlgebras]
    (a Lie algebra, an ideal, a product space; [A] is the type of such
    objects), or anything else. *)
Inductive object (E A : Type) : Type :=
| Element (x : E)
| Integer (n : Z)
| LieAlgebraLike (a : A)
| Other (repr : string).

Arguments Element {E A} x.
Arguments Integer {E A} n.
Arguments LieAlgebraLike {E A} a.
Arguments Other {E A} repr.

(** [x in LieAlgebras]: the category membership test. *)
Definition in_LieAlgebras {E A : Type} (x : object E A) : bool :=
match x with
| LieAlgebraLike _ => true
| _ => false
end.

(** A parent in the category: its element arithmetic, the element method
    [_bracket_], element equality [==], the element constructor [self(x)],
    its generators, whether it lies in [LieAlgebras.Nilpotent], and the
    answer of [step()], which only parents in that subcategory implement. *)
Record LieAlgebra (A : Type) : Type := {
  Elt : Type;
  zero : Elt;
  add : Elt -> Elt -> Elt;
  neg : Elt -> Elt;
  _bracket_ : Elt -> Elt -> Elt;
  elt_eq : Elt -> Elt -> bool;
  call : object Elt A -> result Elt;
  lie_algebra_generators : Family Elt;
  in_Nilpotent : bool;
  step : option Z
}.

Arguments Elt {A} l.
Arguments zero {A} l.
Arguments add {A} l _ _.
Arguments neg {A} l _.
Arguments _bracket_ {A} l _ _.
Arguments elt_eq {A} l _ _.
Arguments call {A} l _.
Arguments lie_algebra_generators {A} l.
Arguments in_Nilpotent {A} l.
Arguments step {A} l.

(** The laws of the substrate that the documented properties rest on,
    each named for the statement that assumes it. *)

(** Addition is associative with right identity [zero] and right inverse
    [neg]. *)
Definition additive_group {A : Type} (L : LieAlgebra A) : Prop :=
(forall x y z, add L x (add L y z) = add L (add L x y) z)
/\ (forall x, add L x (zero L) = x)
/\ (forall x, add L x (neg L x) = zero L).

(** [_bracket_] is additive in each argument (the part of bilinearity that
    does not involve scalars). *)
Definition biadditive {A : Type} (L : LieAlgebra A) : Prop :=
(forall x y z, _bracket_ L x (add L y z) = add L (_bracket_ L x y) (_bracket_ L x z))
/\ (forall x y z, _bracket_ L (add L x y) z = add L (_bracket_ L x z) (_bracket_ L y z)).

(** The element constructor returns elements of [self] unchanged and sends
    the integer 0 to the zero element. *)
Definition converts {A : Type} (L : LieAlgebra A) : Prop :=
(forall x, call L (Element x) = Ok x)
/\ call L (Integer 0) = Ok (zero L).

(** [==] against the zero element decides being zero. *)
Definition decides_zero {A : Type} (L : LieAlgebra A) : Prop :=
forall x, elt_eq L x (zero L) = true <-> x = zero L.

(** The term sequence of a generator object.  The BCH generator yields
    infinitely many terms in general and finitely many on a nilpotent
    algebra. *)
Inductive terms (E : Type) : Type :=
| Finite (ts : list E)
| Infinite (t : nat -> E).

Arguments Finite {E} ts.
Arguments Infinite {E} t.

(** A live generator object: its term sequence and how many terms have been
    taken from it. *)
Record generator (E : Type) : Type := {
  body : terms E;
  pos : nat
}.

Definition iter {E : Type} (b : terms E) : generator E :=
{| body := b; pos := 0 |}.

Definition term_at {E : Type} (b : terms E) (k : nat) : option E :=
match b with
| Finite ts => nth_error ts k
| Infinite t => Some (t k)
end.

(** The [n] terms of a sequence that follow its first [p] terms (fewer when
    it ends earlier), and its first [n] terms. *)
Definition terms_from {E : Type} (b : terms E) (p n : nat) : list E :=
match b with
| Finite ts => firstn n (skipn p ts)
| Infinite t => map t (seq p n)
end.

Definition first_terms {E : Type} (n : nat) (b : terms E) : list E :=
terms_from b 0 n.

(** [next(g)]: the next term and the advanced generator, or [None]
    ([StopIteration]) with the generator left exhausted. *)
Definition next {E : Type} (g : generator E) : option E * generator E :=
match term_at (body g) (pos g) with
| Some z => (Some z, {| body := body g; pos := S (pos g) |})
| None => (None, g)
end.

(** What a call of [bch] leaves behind: the answer and the number of terms
    it took from the generator it created (0 when it created none). *)
Record bch_run (E : Type) : Type := {
  answer : result E;
  taken : nat
}.

Section ParentMethods.

Variable A : Type.
Variable self : LieAlgebra A.

Local Abbreviation E := (Elt self).
Local Abbreviation obj := (object (Elt self) A).

(** Methods looked up on the operand objects. *)
Variable product_space : obj -> obj -> result obj.
Variable ideal : obj -> obj -> result obj.

(** [ParentMethods.bracket]. *)
Definition bracket (lhs rhs : obj) : result obj :=
if in_LieAlgebras lhs then
  if in_LieAlgebras rhs then product_space lhs rhs
  else ideal lhs rhs
else if in_LieAlgebras rhs then ideal rhs lhs
else
  x <- call self lhs ;;
  y <- call self rhs ;;
  Ok (Element (_bracket_ self x y)).

(** [ParentMethods.ideal] as this file defines it; concrete parents
    override it. *)
Definition default_ideal (lhs gens : obj) : result obj :=
Raise (NotImplementedError "ideals not yet implemented: see #16824").

(** [ParentMethods.is_abelian]. *)
Definition is_abelian : result bool :=
let G := lie_algebra_generators self in
match G with
| NotKnownFinite _ => Raise (NotImplementedError "infinite number of generators")
| FiniteEnumerated G =>
    let zero := zero self in
    Ok (forallb (fun x =>
          forallb (fun y => elt_eq self (_bracket_ self x y) zero) G) G)
end.

(** [ParentMethods.is_commutative]. *)
Definition is_commutative : result bool :=
is_abelian.

(** [self.sum(args)] once the iterable [args] has been run to its end:
    Python's [sum(args, self.zero())], a left fold. *)
Definition sum (args : list E) : E :=
fold_left (add self) args (zero self).

(** Running [Z for Z in g] to exhaustion, collecting the terms; [fuel]
    bounds the number of [next] calls. *)
Fixpoint drain (fuel : nat) (g : generator E) (acc : list E)
  : result (list E) * generator E :=
match fuel with
| O => (Unfinished, g)
| S fuel' =>
    match next g with
    | (Some z, g') => drain fuel' g' (acc ++ [z])
    | (None, g') => (Ok acc, g')
    end
end.

(** Running [next(g) for k in range(prec)]: one [next] per index.  The
    repository is Python 2 code (the coding module uses implicit relative
    imports), where a [StopIteration] leaving the body of a generator
    expression ends that generator expression. *)
Fixpoint pull (ks : list Z) (g : generator E) (acc : list E)
  : list E * generator E :=
match ks with
| [] => (acc, g)
| _ :: ks' =>
    match next g with
    | (Some z, g') => pull ks' g' (acc ++ [z])
    | (None, g') => (acc, g')
    end
end.

(** The error of [bch] when the precision is needed and missing. *)
Definition precision_required : exn :=
ValueError
  "the Lie algebra is not known to be nilpotent, so you must specify the precision".

(** The external term generator [bch_iterator(X, Y)]. *)
Variable bch_iterator : E -> E -> terms E.

(** [ParentMethods.bch]; [prec = None] is the omitted argument. *)
Definition bch (fuel : nat) (X Y : E) (prec : option Z) : bch_run E :=
if negb (in_Nilpotent self) && (match prec with None => true | Some _ => false end)
then {| answer := Raise precision_required; taken := 0 |}
else
  match prec with
  | None =>
      let r := drain fuel (iter (bch_iterator X Y)) [] in
      {| answer := (zs <- fst r ;; Ok (sum zs)); taken := pos (snd r) |}
  | Some prec =>
      let bch := iter (bch_iterator X Y) in
      let r := pull (range prec) bch [] in
      {| answer := Ok (sum (fst r)); taken := pos (snd r) |}
  end.

End ParentMethods.

End LieAlgebras.

(* ------------------------------------------------------------------ *)
(** ** Two concrete parents over the integers *)

Module Examples.

Import LieAlgebras.

Definition vec : Type := (Z * Z * Z)%type.

Definition vadd (u v : vec) : vec :=
match u, v with
| (a, b, c), (a', b', c') => (a + a', b + b', c + c')
end.

Definition vneg (u : vec) : vec :=
match u with
| (a, b, c) => (- a, - b, - c)
end.

Definition veq (u v : vec) : bool :=
match u, v with
| (a, b, c), (a', b', c') => (a =? a') && (b =? b') && (c =? c')
end.

(** Lie-algebra-like operands are given by a spanning list. *)
Definition span : Type := list vec.

(** The usual element constructor: elements pass through, the integer 0
    becomes the zero element, nothing else converts. *)
Definition vcall (x : object vec span) : result vec :=
match x with
| Element v => Ok v
| Integer 0 => Ok (0, 0, 0)
| _ => Raise (TypeError "no conversion to an element of the Lie algebra")
end.

(** Heisenberg algebra of rank 1, basis [p, q, z] with [[p, q] = z]. *)
Definition heis_bracket (u v : vec) : vec :=
match u, v with
| (p, q, _), (p', q', _) => (0, 0, p * q' - q * p')
end.

Definition heisenberg : LieAlgebra span :=
{| Elt := vec;
   zero := (0, 0, 0);
   add := vadd;
   neg := vneg;
   _bracket_ := heis_bracket;
   elt_eq := veq;
   call := vcall;
   lie_algebra_generators := FiniteEnumerated [(1, 0, 0); (0, 1, 0)];
   in_Nilpotent := true;
   step := Some 2 |}.

(** Its BCH terms: [X + Y] and [1/2 [X, Y]] (step 2); over the integers
    the second term is exact when the bracket is even. *)
Definition heis_bch_iterator (X Y : vec) : terms vec :=
match heis_bracket X Y with
| (_, _, c) => Finite [vadd X Y; (0, 0, c / 2)]
end.

(** The same series written out to bracket length 3, as a generator that
    does not stop at the step produces it: the third term is
    [1/12 ([X, [X, Y]] + [Y, [Y, X]])]. *)
Definition heis_bch_iterator3 (X Y : vec) : terms vec :=
match heis_bracket X Y,
      vadd (heis_bracket X (heis_bracket X Y)) (heis_bracket Y (heis_bracket Y X)) with
| (_, _, c), (d1, d2, d3) =>
    Finite [vadd X Y; (0, 0, c / 2); (d1 / 12, d2 / 12, d3 / 12)]
end.

(** The cross product on triples, with its generators handed over as a
    plain tuple; not nilpotent. *)
Definition cross_bracket (u v : vec) : vec :=
match u, v with
| (a, b, c), (a', b', c') => (b * c' - c * b', c * a' - a * c', a * b' - b * a')
end.

Definition cross : LieAlgebra span :=
{| Elt := vec;
   zero := (0, 0, 0);
   add := vadd;
   neg := vneg;
   _bracket_ := cross_bracket;
   elt_eq := veq;
   call := vcall;
   lie_algebra_generators :=
     NotKnownFinite (nth_error [(1, 0, 0); (0, 1, 0); (0, 0, 1)]);
   in_Nilpotent := false;
   step := None |}.

(** A never-ending term sequence for [cross]; only its first term matters
    to the statements below. *)
Definition cross_bch_iterator (X Y : vec) : terms vec :=
Infinite (fun k => match k with O => vadd X Y | S _ => (0, 0, 0) end).

(** Methods of the operand objects: the product space is spanned by the
    pairwise brackets, ideals are the category default. *)
Definition heis_product_space (lhs rhs : object vec span)
  : result (object vec span) :=
match lhs, rhs with
| LieAlgebraLike a, LieAlgebraLike b =>
    Ok (LieAlgebraLike
          (flat_map (fun u => map (fun v => heis_bracket u v) b) a))
| _, _ => Raise (TypeError "product_space expects a Lie algebra")
end.

End Examples.

(* ------------------------------------------------------------------ *)
(** ** Subfield subcodes *)

Module SubfieldSubcodes.

(** What the constructor and the bounds ask of a field. *)
Record Field : Type := {
  is_finite : bool;
  characteristic : Z;
  order : Z;
  variable_name : string
}.

(** What they ask of an instance of [AbstractLinearCode]. *)
Record LinearCode : Type := {
  base_field : Field;
  length : Z;
  dimension : Z
}.

(** A constructor argument: an [AbstractLinearCode] instance or not. *)
Inductive argument : Type :=
| Code (C : LinearCode)
| NotACode (repr : string).


(** The attributes set by [__init__]: [_original_code], and the base field,
    length and default encoder and decoder names handed to the superclass. *)
Record SubfieldSubcode : Type := {
  _original_code : LinearCode;
  sub_base_field : Field;
  sub_length : Z;
  default_encoder_name : string;
  default_decoder_name : string
}.

(** [Integer.exact_log]: the largest [e] with [m ^ e <= x]. *)
Fixpoint exact_log_aux (fuel : nat) (x m : Z) : Z :=
match fuel with
| O => 0
| S fuel' => if x <? m then 0 else 1 + exact_log_aux fuel' (x / m) m
end.

Definition exact_log (x m : Z) : Z :=
exact_log_aux (Z.to_nat x) x m.

(** Modelled from the spec: [log] of [sage.functions.all], which is not in
    these files.  The spec writes the orders as powers of the characteristic
    and takes the exponents; accordingly [log x m] is the exponent when [x]
    is an exact power of [m] and [None] (no integer) otherwise. *)
Definition log (x m : Z) : option Z :=
if (2 <=? m) && (1 <=? x) && (m ^ exact_log x m =? x)
then Some (exact_log x m)
else None.

(** [s.divides(sm)]: integer divisibility, with 0 dividing only 0. *)
Definition divides (s sm : Z) : bool :=
if s =? 0 then sm =? 0 else sm mod s =? 0.

(** [SubfieldSubcode.__init__]. *)
Definition __init__ (original_code : argument) (subfield : Field)
  : result SubfieldSubcode :=
match original_code with
| NotACode _ => Raise (ValueError "original_code must be a linear code")
| Code C =>
    if negb (is_finite subfield)
    then Raise (ValueError "subfield has to be a finite field")
    else
      let p := characteristic subfield in
      let s := log (order subfield) p in
      let sm := log (order (base_field C)) p in
      match s, sm with
      | Some s, Some sm =>
          if negb (divides s sm)
          then Raise (ValueError
            "subfield has to be a subfield of the base field of the original code")
          else Ok {| _original_code := C;
                     sub_base_field := subfield;
                     sub_length := length C;
                     default_encoder_name := "ParityCheck";
                     default_decoder_name := "Syndrome" |}
      | _, _ => Raise (TypeError "unable to convert to an integer")
      end
end.

Definition original_code (self : SubfieldSubcode) : LinearCode :=
_original_code self.

(** The right-hand operand of [==]. *)
Inductive operand : Type :=
| Subcode (other : SubfieldSubcode)
| NotASubcode (repr : string).

Section Methods.

(** Equality of the original codes, as their own class defines it. *)
Variable code_eq : LinearCode -> LinearCode -> bool.

(** [SubfieldSubcode.__eq__]. *)
Definition __eq__ (self : SubfieldSubcode) (other : operand) : bool :=
match other with
| NotASubcode _ => false
| Subcode other =>
    code_eq (original_code self) (original_code other)
    && (order (sub_base_field self) =? order (sub_base_field other))
end.

End Methods.

(** [SubfieldSubcode.dimension_upper_bound]. *)
Definition dimension_upper_bound (self : SubfieldSubcode) : Z :=
dimension (original_code self).

(** [SubfieldSubcode.dimension_lower_bound]; [None] when [log] yields no
    integer. *)
Definition dimension_lower_bound (self : SubfieldSubcode) : option Z :=
let C := original_code self in
let n := length C in
let k := dimension C in
let F := base_field C in
let t := log (order F / order (sub_base_field self)) (characteristic F) in
option_map (fun t => n - t * (n - k)) t.

(** The fields and the code of the docstrings; [GF p e name] is the field
    with [p ^ e] elements and generator called [name]. *)
Definition GF (p e : Z) (name : string) : Field :=
{| is_finite := true; characteristic := p; order := p ^ e; variable_name := name |}.

Definition RR : Field :=
{| is_finite := false; characteristic := 0; order := 0; variable_name := "RR" |}.

Definition C_7_3_GF16 : LinearCode :=
{| base_field := GF 2 4 "aa"; length := 7; dimension := 3 |}.

(** [codes.SubfieldSubcode(C, GF(4, name))] for that code. *)
Definition Cs (name : string) : SubfieldSubcode :=
{| _original_code := C_7_3_GF16;
   sub_base_field := GF 2 2 name;
   sub_length := 7;
   default_encoder_name := "ParityCheck";
   default_decoder_name := "Syndrome" |}.

(** Equality of linear codes by the data above. *)
Definition field_eqb (F G : Field) : bool :=
Bool.eqb (is_finite F) (is_finite G)
&& (characteristic F =? characteristic G)
&& (order F =? order G)
&& String.eqb (variable_name F) (variable_name G).

Definition code_eqb (C D : LinearCode) : bool :=
field_eqb (base_field C) (base_field D)
&& (length C =? length D)
&& (dimension C =? dimension D).

End SubfieldSubcodes.

(* ------------------------------------------------------------------ *)
(** ** The category of Lie algebras: self-tests and the lift *)

Module LieAlgebrasMore.

Import LieAlgebras.

(** How a [_test_*] method ends: it returns, the tester's [assertTrue]
    raises [AssertionError], another exception comes through, or a call it
    makes gives no answer. *)
Inductive outcome : Type :=
| Passes
| AssertionError
| Stops (e : exn)
| Hangs.

(** [tester.assertTrue(c)] on a condition whose evaluation may itself
    raise. *)
Definition assertTrue (c : result bool) : outcome :=
match c with
| Ok true => Passes
| Ok false => AssertionError
| Raise e => Stops e
| Unfinished => Hangs
end.

(** A [for] loop whose body may end the method. *)
Fixpoint for_each {X : Type} (xs : list X) (body : X -> outcome) : outcome :=
match xs with
| [] => Passes
| x :: xs' =>
    match body x with
    | Passes => for_each xs' body
    | o => o
    end
end.

Section SelfTests.

Variable A : Type.
Variable self : LieAlgebra A.

Local Abbreviation E := (Elt self).
Local Abbreviation obj := (object (Elt self) A).

Variable product_space : obj -> obj -> result obj.
Variable ideal : obj -> obj -> result obj.

(** [x + y] and [x == y] on what [bracket] returns: element arithmetic and
    element equality when both sides are elements of [self]. *)
Definition obj_add (x y : obj) : result obj :=
match x, y with
| Element a, Element b => Ok (Element (add self a b))
| _, _ => Raise (TypeError "unsupported operand parent(s) for +")
end.

Definition obj_eq (x y : obj) : bool :=
match x, y with
| Element a, Element b => elt_eq self a b
| _, _ => false
end.

(** The [jacobi] lambda of [_test_jacobi_identity]. *)
Definition jacobi (x y z : obj) : result obj :=
yz <- bracket self product_space ideal y z ;;
a <- bracket self product_space ideal x yz ;;
zx <- bracket self product_space ideal z x ;;
b <- bracket self product_space ideal y zx ;;
ab <- obj_add a b ;;
xy <- bracket self product_space ideal x y ;;
c <- bracket self product_space ideal z xy ;;
obj_add ab c.

(** [ParentMethods._test_jacobi_identity]; [elts] is
    [tester.some_elements()]. *)
Definition _test_jacobi_identity (elts : list E) : outcome :=
let zero := Element (zero self) in
for_each elts (fun x =>
  for_each elts (fun y =>
    if elt_eq self x y then Passes
    else
      for_each elts (fun z =>
        assertTrue (v <- jacobi (Element x) (Element y) (Element z) ;;
                    Ok (obj_eq v zero))))).

(** [ParentMethods._test_antisymmetry]. *)
Definition _test_antisymmetry (elts : list E) : outcome :=
let zero := Element (zero self) in
for_each elts (fun x =>
  assertTrue (v <- bracket self product_space ideal (Element x) (Element x) ;;
              Ok (obj_eq v zero))).

(** The triples [some_tuples(S, 3, tester._max_runs)] hands out. *)
Variable some_tuples : list E -> nat -> list (E * E * E).

(** [ParentMethods._test_distributivity]. *)
Definition _test_distributivity (S : list E) (max_runs : nat) : outcome :=
for_each (some_tuples S max_runs) (fun t =>
  match t with
  | (x, y, z) =>
      match assertTrue
              (l <- bracket self product_space ideal
                      (Element x) (Element (add self y z)) ;;
               a <- bracket self product_space ideal (Element x) (Element y) ;;
               b <- bracket self product_space ideal (Element x) (Element z) ;;
               r <- obj_add a b ;;
               Ok (obj_eq l r)) with
      | Passes =>
          assertTrue
            (l <- bracket self product_space ideal
                    (Element (add self x y)) (Element z) ;;
             a <- bracket self product_space ideal (Element x) (Element z) ;;
             b <- bracket self product_space ideal (Element y) (Element z) ;;
             r <- obj_add a b ;;
             Ok (obj_eq l r))
      | o => o
      end
  end).

(** The identities the tests look at, on elements. *)
Definition jacobi_sum (x y z : E) : E :=
add self
  (add self (_bracket_ self x (_bracket_ self y z))
            (_bracket_ self y (_bracket_ self z x)))
  (_bracket_ self z (_bracket_ self x y)).

Definition alternating : Prop :=
forall x, _bracket_ self x x = zero self.

(** [==] on elements decides equality. *)
Definition decides_eq : Prop :=
forall x y, elt_eq self x y = true <-> x = y.

(** What can be built from a list of generators with [+], negation and the
    bracket. *)
Inductive generated (G : list E) : E -> Prop :=
| generated_gen (x : E) : In x G -> generated G x
| generated_zero : generated G (zero self)
| generated_add (x y : E) :
    generated G x -> generated G y -> generated G (add self x y)
| generated_neg (x : E) : generated G x -> generated G (neg self x)
| generated_bracket (x y : E) :
    generated G x -> generated G y -> generated G (_bracket_ self x y).

(** The same without the bracket. *)
Inductive spanned (G : list E) : E -> Prop :=
| spanned_gen (x : E) : In x G -> spanned G x
| spanned_zero : spanned G (zero self)
| spanned_add (x y : E) :
    spanned G x -> spanned G y -> spanned G (add self x y)
| spanned_neg (x : E) : spanned G x -> spanned G (neg self x).

End SelfTests.

Section Lift.

Variable A : Type.
Variable self : LieAlgebra A.

(** The enveloping algebras, and what the optional method
    [_construct_UEA()] of [self] does. *)
Variable U : Type.
Variable _construct_UEA : result U.

(** [LiftMorphism(domain, codomain)]. *)
Record LiftMorphism : Type := {
  domain : LieAlgebra A;
  codomain : U
}.

(** What the lift touches: the instance attribute that [lazy_attribute]
    fills on the first successful access, the coercions registered so far,
    and the number of calls of [_construct_UEA]. *)
Record world : Type := {
  lift_attribute : option LiftMorphism;
  coercions : list LiftMorphism;
  UEA_calls : nat
}.

Definition fresh : world :=
{| lift_attribute := None; coercions := []; UEA_calls := 0 |}.

(** The body of [ParentMethods.lift]. *)
Definition lift_body (w : world) : result LiftMorphism * world :=
match _construct_UEA with
| Ok u =>
    let M := {| domain := self; codomain := u |} in
    (Ok M, {| lift_attribute := lift_attribute w;
              coercions := coercions w ++ [M];
              UEA_calls := S (UEA_calls w) |})
| Raise e =>
    (Raise e, {| lift_attribute := lift_attribute w;
                 coercions := coercions w;
                 UEA_calls := S (UEA_calls w) |})
| Unfinished =>
    (Unfinished, {| lift_attribute := lift_attribute w;
                    coercions := coercions w;
                    UEA_calls := S (UEA_calls w) |})
end.

(** [self.lift]: the attribute access under [@lazy_attribute]. *)
Definition lift (w : world) : result LiftMorphism * world :=
match lift_attribute w with
| Some M => (Ok M, w)
| None =>
    match lift_body w with
    | (Ok M, w') =>
        (Ok M, {| lift_attribute := Some M;
                  coercions := coercions w';
                  UEA_calls := UEA_calls w' |})
    | (r, w') => (r, w')
    end
end.

(** [ParentMethods.universal_enveloping_algebra]. *)
Definition universal_enveloping_algebra (w : world) : result U * world :=
match lift w with
| (r, w') => (M <- r ;; Ok (codomain M), w')
end.

(** A sequence of uses of the two. *)
Inductive access : Type :=
| get_lift
| get_universal_enveloping_algebra.

Definition step_access (a : access) (w : world) : result U * world :=
match a with
| get_lift =>
    match lift w with
    | (r, w') => (M <- r ;; Ok (codomain M), w')
    end
| get_universal_enveloping_algebra => universal_enveloping_algebra w
end.

Fixpoint run (accesses : list access) (w : world) : list (result U) * world :=
match accesses with
| [] => ([], w)
| a :: rest =>
    match step_access a w with
    | (r, w') =>
        match run rest w' with
        | (rs, w'') => (r :: rs, w'')
        end
    end
end.

End Lift.

(** The abelian Lie algebra on three generators over the integers, as in
    the docstrings' [LieAlgebra(QQ, 3, 'x', abelian=True)]. *)
Definition abelian3 : LieAlgebra Examples.span :=
{| Elt := Examples.vec;
   zero := (0, 0, 0);
   add := Examples.vadd;
   neg := Examples.vneg;
   _bracket_ := fun _ _ => (0, 0, 0);
   elt_eq := Examples.veq;
   call := Examples.vcall;
   lie_algebra_generators :=
     FiniteEnumerated [(1, 0, 0); (0, 1, 0); (0, 0, 1)];
   in_Nilpotent := true;
   step := Some 1 |}.

(** One way to hand out triples: the first [bound] of all triples over the
    sample, in product order. *)
Definition first_triples {E : Type} (S : list E) (bound : nat)
  : list (E * E * E) :=
firstn bound
  (flat_map (fun x => flat_map (fun y => map (fun z => (x, y, z)) S) S) S).

End LieAlgebrasMore.

(* ------------------------------------------------------------------ *)
(** ** Properties of the Lie algebra methods *)

Module LieAlgebrasFacts.

Import LieAlgebras.

(** *** Lists and generators *)

Lemma skipn_nth_error_Some (E : Type) (ts : list E) :
  forall p z, nth_error ts p = Some z -> skipn p ts = z :: skipn (S p) ts.
Proof.
  induction ts as [|t ts IH]; intros [|p] z H; simpl in H; try discriminate.
  - injection H as ->. reflexivity.
  - change (skipn (S p) (t :: ts)) with (skipn p ts).
    change (skipn (S (S p)) (t :: ts)) with (skipn (S p) ts).
    now apply IH.
Qed.

Lemma skipn_nth_error_None (E : Type) (ts : list E) (p : nat) :
  nth_error ts p = None -> skipn p ts = [].
Proof.
  intros H. apply skipn_all2. now apply nth_error_None.
Qed.

Lemma terms_from_Some (E : Type) (b : terms E) (p n : nat) (z : E) :
  term_at b p = Some z ->
  terms_from b p (S n) = z :: terms_from b (S p) n.
Proof.
  destruct b as [ts|t]; simpl; intros H.
  - rewrite (skipn_nth_error_Some ts p H). reflexivity.
  - now injection H as <-.
Qed.

Lemma terms_from_None (E : Type) (b : terms E) (p n : nat) :
  term_at b p = None -> terms_from b p n = [].
Proof.
  destruct b as [ts|t]; simpl; intros H; [|discriminate].
  rewrite (skipn_nth_error_None ts p H). now destruct n.
Qed.

Lemma terms_from_length (E : Type) (b : terms E) (p n : nat) :
  (List.length (terms_from b p n) <= n)%nat.
Proof.
  destruct b as [ts|t]; simpl.
  - rewrite length_firstn. lia.
  - rewrite length_map, length_seq. lia.
Qed.

Section Runs.

Variable A : Type.
Variable L : LieAlgebra A.

(** [pull] takes the terms that follow the generator's position, one per
    index, and leaves the generator right after them. *)
Lemma pull_terms_from (b : terms (Elt L)) :
  forall (ks : list Z) (p : nat) (acc : list (Elt L)),
    pull L ks {| body := b; pos := p |} acc
    = (acc ++ terms_from b p (List.length ks),
       {| body := b; pos := p + List.length (terms_from b p (List.length ks)) |}).
Proof.
  induction ks as [|k ks IH]; intros p acc.
  - simpl. destruct b; simpl; rewrite ?app_nil_r, Nat.add_0_r; reflexivity.
  - cbn [pull List.length]. unfold next. cbn [body pos].
    destruct (term_at b p) as [z|] eqn:Hz.
    + rewrite IH, (terms_from_Some b p (List.length ks) Hz).
      rewrite <- app_assoc. cbn [app List.length].
      now rewrite Nat.add_succ_r.
    + rewrite (terms_from_None b p (S (List.length ks)) Hz).
      simpl. now rewrite app_nil_r, Nat.add_0_r.
Qed.

(** [drain] on a finite sequence collects what is left of it, given one
    more [next] than there are terms left. *)
Lemma drain_Finite (ts : list (Elt L)) :
  forall (fuel p : nat) (acc : list (Elt L)),
    (p <= List.length ts)%nat ->
    (List.length ts - p < fuel)%nat ->
    drain L fuel {| body := Finite ts; pos := p |} acc
    = (Ok (acc ++ skipn p ts), {| body := Finite ts; pos := List.length ts |}).
Proof.
  induction fuel as [|fuel IH]; intros p acc Hp Hfuel; [lia|].
  cbn [drain]. unfold next. cbn [body pos term_at].
  destruct (nth_error ts p) as [z|] eqn:Hz.
  - assert (p < List.length ts)%nat by (apply nth_error_Some; congruence).
    rewrite IH by lia.
    rewrite (skipn_nth_error_Some ts p Hz), <- app_assoc. reflexivity.
  - rewrite (skipn_nth_error_None ts p Hz).
    apply nth_error_None in Hz.
    replace p with (List.length ts) by lia. now rewrite app_nil_r.
Qed.

(** On a sequence that never ends [drain] has no answer, whatever the
    number of steps it is given. *)
Lemma drain_Infinite (t : nat -> Elt L) :
  forall (fuel p : nat) (acc : list (Elt L)),
    fst (drain L fuel {| body := Infinite t; pos := p |} acc) = Unfinished.
Proof.
  induction fuel as [|fuel IH]; intros p acc; [reflexivity|].
  cbn [drain]. unfold next. cbn [body pos term_at]. apply IH.
Qed.

(** Trailing zero terms do not change a sum. *)
Lemma fold_add_zeros (zs : list (Elt L)) :
  (forall x, add L x (zero L) = x) ->
  (forall z, In z zs -> z = zero L) ->
  forall a, fold_left (add L) zs a = a.
Proof.
  intros H0. induction zs as [|z zs IH]; intros Hz a; [reflexivity|].
  simpl. rewrite (Hz z (or_introl eq_refl)), H0.
  apply IH. intros z' Hz'. apply Hz. now right.
Qed.

Lemma sum_firstn_zeros (ts : list (Elt L)) (n : nat) :
  (forall x, add L x (zero L) = x) ->
  (forall k z, (n <= k)%nat -> nth_error ts k = Some z -> z = zero L) ->
  sum L (firstn n ts) = sum L ts.
Proof.
  intros H0 Hz. unfold sum.
  rewrite <- (firstn_skipn n ts) at 2.
  rewrite fold_left_app. symmetry. apply fold_add_zeros; [exact H0|].
  intros z Hin. apply In_nth_error in Hin. destruct Hin as [k Hk].
  rewrite nth_error_skipn in Hk.
  apply (Hz (n + k)%nat z); [lia|exact Hk].
Qed.

End Runs.

Lemma terms_from_full (E : Type) (b : terms E) (n : nat) :
  (forall k, (k < n)%nat -> term_at b k <> None) ->
  List.length (first_terms n b) = n.
Proof.
  unfold first_terms. destruct b as [ts|t]; simpl; intros H.
  - rewrite length_firstn. apply Nat.min_l.
    destruct (Nat.le_gt_cases n (List.length ts)) as [Hle|Hgt]; [exact Hle|].
    exfalso. apply (H (List.length ts) Hgt). now apply nth_error_None.
  - now rewrite length_map, length_seq.
Qed.

(** *** The Baker-Campbell-Hausdorff sum *)

Section BchRuns.

Variable A : Type.
Variable L : LieAlgebra A.
Variable bch_iterator : Elt L -> Elt L -> terms (Elt L).
Variables X Y : Elt L.

(** Iterating a generator raises nothing. *)
Lemma drain_never_raises :
  forall (fuel : nat) (g : generator (Elt L)) (acc : list (Elt L)) (e : exn),
    fst (drain L fuel g acc) <> Raise e.
Proof.
  induction fuel as [|fuel IH]; intros g acc e; [discriminate|].
  cbn [drain]. destruct (next g) as [[z|] g']; [apply IH|discriminate].
Qed.

Lemma bch_omitted_run (ts : list (Elt L)) (fuel : nat) :
  in_Nilpotent L = true ->
  bch_iterator X Y = Finite ts ->
  (List.length ts < fuel)%nat ->
  bch L bch_iterator fuel X Y None
  = {| answer := Ok (sum L ts); taken := List.length ts |}.
Proof.
  intros Hnil Hts Hfuel. unfold bch, iter.
  rewrite Hnil, Hts. cbn [negb andb].
  rewrite drain_Finite by lia. reflexivity.
Qed.

Lemma bch_explicit_run (prec : Z) (fuel : nat) :
  bch L bch_iterator fuel X Y (Some prec)
  = {| answer := Ok (sum L (first_terms (Z.to_nat prec) (bch_iterator X Y)));
       taken := List.length (first_terms (Z.to_nat prec) (bch_iterator X Y)) |}.
Proof.
  unfold bch, iter. rewrite andb_false_r.
  rewrite pull_terms_from. cbn [fst snd pos app Nat.add].
  unfold range. rewrite length_map, length_seq. reflexivity.
Qed.

End BchRuns.

(** C1.  On a parent in [Nilpotent] and with [prec] omitted, [bch] returns
    the sum of the whole finite term sequence of the external generator
    (given one more step than it has terms).  With an explicit integer
    [prec] it returns, on any parent, the sum of the first [prec] terms of
    that sequence and takes no term beyond them from the generator; it takes
    exactly [prec] terms when the generator has that many. *)
Theorem bch_sums_generator_terms (A : Type) (L : LieAlgebra A)
  (bch_iterator : Elt L -> Elt L -> terms (Elt L)) (X Y : Elt L) :
  (forall (ts : list (Elt L)) (fuel : nat),
      in_Nilpotent L = true ->
      bch_iterator X Y = Finite ts ->
      (List.length ts < fuel)%nat ->
      bch L bch_iterator fuel X Y None
      = {| answer := Ok (sum L ts); taken := List.length ts |})
  /\ (forall (prec : Z) (fuel : nat),
      bch L bch_iterator fuel X Y (Some prec)
      = {| answer := Ok (sum L (first_terms (Z.to_nat prec) (bch_iterator X Y)));
           taken := List.length (first_terms (Z.to_nat prec) (bch_iterator X Y)) |}
      /\ (taken (bch L bch_iterator fuel X Y (Some prec)) <= Z.to_nat prec)%nat
      /\ ((forall k, (k < Z.to_nat prec)%nat -> term_at (bch_iterator X Y) k <> None) ->
          taken (bch L bch_iterator fuel X Y (Some prec)) = Z.to_nat prec)).
Proof.
  split.
  - intros ts fuel. apply bch_omitted_run.
  - intros prec fuel. rewrite bch_explicit_run. cbn [taken].
    split; [reflexivity|]. split.
    + apply terms_from_length.
    + apply terms_from_full.
Qed.

(** C2.  With [prec] omitted, a parent outside [Nilpotent] gets the
    precision-required error and nothing is taken from any generator; a
    parent inside [Nilpotent] never gets that error. *)
Theorem bch_precision_required (A : Type) (L : LieAlgebra A)
  (bch_iterator : Elt L -> Elt L -> terms (Elt L)) (X Y : Elt L) (fuel : nat) :
  (in_Nilpotent L = false ->
     bch L bch_iterator fuel X Y None
     = {| answer := Raise precision_required; taken := 0 |})
  /\ (in_Nilpotent L = true ->
     answer (bch L bch_iterator fuel X Y None) <> Raise precision_required).
Proof.
  split; intros H; unfold bch; rewrite H; cbn [negb andb]; [reflexivity|].
  cbn [answer].
  pose proof (drain_never_raises L fuel (iter (bch_iterator X Y)) []) as Hno.
  destruct (fst (drain L fuel (iter (bch_iterator X Y)) [])) as [zs|e|];
    simpl; [discriminate|now destruct (Hno e)|discriminate].
Qed.

(** C3.  On a nilpotent parent of step [s] whose generator terms of
    bracket length above [s] are zero, [bch] without [prec] and [bch] with
    any [prec >= s] return the same element. *)
Theorem bch_default_agrees_from_step (A : Type) (L : LieAlgebra A)
  (bch_iterator : Elt L -> Elt L -> terms (Elt L)) (X Y : Elt L)
  (ts : list (Elt L)) (s : Z) :
  in_Nilpotent L = true ->
  step L = Some s ->
  (forall x, add L x (zero L) = x) ->
  bch_iterator X Y = Finite ts ->
  (forall k z, (Z.to_nat s <= k)%nat -> nth_error ts k = Some z -> z = zero L) ->
  forall (prec : Z) (fuel : nat),
    s <= prec ->
    (List.length ts < fuel)%nat ->
    exists v : Elt L,
      answer (bch L bch_iterator fuel X Y None) = Ok v
      /\ answer (bch L bch_iterator fuel X Y (Some prec)) = Ok v.
Proof.
  intros Hnil _ H0 Hts Hzero prec fuel Hprec Hfuel.
  exists (sum L ts). split.
  - now rewrite (bch_omitted_run L bch_iterator X Y Hnil Hts Hfuel).
  - rewrite bch_explicit_run. cbn [answer]. f_equal.
    rewrite Hts. unfold first_terms, terms_from. cbn [skipn].
    apply sum_firstn_zeros; [exact H0|].
    intros k z Hk. apply Hzero. lia.
Qed.

(** *** Bracket dispatch *)

(** C4.  [bracket] has three cases: two Lie-algebra-like operands give the
    product space of the first with the second; exactly one gives the ideal
    of that operand generated by the other; none gives the element bracket
    of the two operands converted into [self]. *)
Theorem bracket_dispatch (A : Type) (self : LieAlgebra A)
  (product_space ideal :
     object (Elt self) A -> object (Elt self) A -> result (object (Elt self) A))
  (lhs rhs : object (Elt self) A) :
  (in_LieAlgebras lhs = true /\ in_LieAlgebras rhs = true ->
     bracket self product_space ideal lhs rhs = product_space lhs rhs)
  /\ (in_LieAlgebras lhs = true /\ in_LieAlgebras rhs = false ->
     bracket self product_space ideal lhs rhs = ideal lhs rhs)
  /\ (in_LieAlgebras lhs = false /\ in_LieAlgebras rhs = true ->
     bracket self product_space ideal lhs rhs = ideal rhs lhs)
  /\ (in_LieAlgebras lhs = false /\ in_LieAlgebras rhs = false ->
     bracket self product_space ideal lhs rhs
     = (x <- call self lhs ;; y <- call self rhs ;;
        Ok (Element (_bracket_ self x y)))).
Proof.
  unfold bracket.
  repeat split; intros [Hl Hr]; rewrite Hl, Hr; reflexivity.
Qed.

Section Zero.

Variable A : Type.
Variable L : LieAlgebra A.
Hypothesis Hgroup : additive_group L.
Hypothesis Hbracket : biadditive L.

Lemma add_idempotent_zero (a : Elt L) : add L a a = a -> a = zero L.
Proof.
  destruct Hgroup as (Hassoc & H0 & Hneg). intros Ha.
  transitivity (add L a (add L a (neg L a))).
  - now rewrite Hneg, H0.
  - now rewrite Hassoc, Ha.
Qed.

Lemma _bracket__zero_r (x : Elt L) : _bracket_ L x (zero L) = zero L.
Proof.
  apply add_idempotent_zero.
  rewrite <- (proj1 Hbracket).
  now rewrite (proj1 (proj2 Hgroup)).
Qed.

Lemma _bracket__zero_l (x : Elt L) : _bracket_ L (zero L) x = zero L.
Proof.
  apply add_idempotent_zero.
  rewrite <- (proj2 Hbracket).
  now rewrite (proj1 (proj2 Hgroup)).
Qed.

End Zero.

(** C5.  When the element bracket is bilinear, [bracket(x, 0)] and
    [bracket(0, x)] are the zero element, for the integer [0] as for the
    zero element itself. *)
Theorem bracket_with_zero (A : Type) (L : LieAlgebra A)
  (product_space ideal :
     object (Elt L) A -> object (Elt L) A -> result (object (Elt L) A)) :
  additive_group L ->
  biadditive L ->
  converts L ->
  forall x : Elt L,
    bracket L product_space ideal (Element x) (Integer 0) = Ok (Element (zero L))
    /\ bracket L product_space ideal (Integer 0) (Element x) = Ok (Element (zero L))
    /\ bracket L product_space ideal (Element x) (Element (zero L))
       = Ok (Element (zero L))
    /\ bracket L product_space ideal (Element (zero L)) (Element x)
       = Ok (Element (zero L)).
Proof.
  intros Hg Hb [Helt Hint] x. unfold bracket. cbn [in_LieAlgebras].
  rewrite !Helt, Hint. cbn [bind].
  rewrite (_bracket__zero_r Hg Hb), (_bracket__zero_l Hg Hb).
  repeat split.
Qed.

(** *** Abelian and commutative *)

Lemma forallb_pairs (E : Type) (f : E -> E -> bool) (G : list E) :
  forallb (fun x => forallb (fun y => f x y) G) G = true
  <-> (forall x y, In x G -> In y G -> f x y = true).
Proof.
  rewrite forallb_forall. split.
  - intros H x y Hx Hy. specialize (H x Hx).
    rewrite forallb_forall in H. now apply H.
  - intros H x Hx. apply forallb_forall. intros y Hy. now apply H.
Qed.

(** C6.  With generators in [FiniteEnumeratedSets()], [is_abelian] answers
    true exactly when the bracket of every ordered pair of generators is
    zero; with any other generators it raises
    [NotImplementedError("infinite number of generators")]. *)
Theorem is_abelian_spec (A : Type) (L : LieAlgebra A) :
  decides_zero L ->
  (forall G : list (Elt L),
      lie_algebra_generators L = FiniteEnumerated G ->
      exists b : bool,
        is_abelian L = Ok b
        /\ (b = true <->
            forall x y, In x G -> In y G -> _bracket_ L x y = zero L))
  /\ (in_FiniteEnumeratedSets (lie_algebra_generators L) = false ->
      is_abelian L = Raise (NotImplementedError "infinite number of generators")).
Proof.
  intros Heq. unfold is_abelian. split.
  - intros G ->. eexists. split; [reflexivity|].
    rewrite forallb_pairs. split; intros H x y Hx Hy.
    + apply Heq. now apply H.
    + apply Heq. now apply H.
  - destruct (lie_algebra_generators L); [discriminate|reflexivity].
Qed.

(** C10.  [is_commutative] is [is_abelian]: the same boolean on generators
    in [FiniteEnumeratedSets()], the same error otherwise. *)
Theorem is_commutative_is_abelian (A : Type) (L : LieAlgebra A) :
  is_commutative L = is_abelian L
  /\ (in_FiniteEnumeratedSets (lie_algebra_generators L) = true ->
      exists b : bool, is_abelian L = Ok b /\ is_commutative L = Ok b)
  /\ (in_FiniteEnumeratedSets (lie_algebra_generators L) = false ->
      is_abelian L = Raise (NotImplementedError "infinite number of generators")
      /\ is_commutative L
         = Raise (NotImplementedError "infinite number of generators")).
Proof.
  unfold is_commutative, is_abelian.
  destruct (lie_algebra_generators L) as [G|g]; cbn [in_FiniteEnumeratedSets].
  - split; [reflexivity|]. split; [|discriminate].
    intros _. eexists. split; reflexivity.
  - split; [reflexivity|]. split; [discriminate|]. now intros _.
Qed.

End LieAlgebrasFacts.

(* ------------------------------------------------------------------ *)
(** ** The statements on the Heisenberg and cross-product parents *)

Module ExamplesFacts.

Import LieAlgebras Examples LieAlgebrasFacts.

Lemma vadd_zero_r (x : vec) : vadd x (0, 0, 0) = x.
Proof. destruct x as [[a b] c]. simpl. now rewrite !Z.add_0_r. Qed.

Lemma heisenberg_additive_group : additive_group heisenberg.
Proof.
  repeat split.
  - intros [[a b] c] [[a' b'] c'] [[a'' b''] c'']. simpl. f_equal; [f_equal|]; lia.
  - exact vadd_zero_r.
  - intros [[a b] c]. simpl. f_equal; [f_equal|]; lia.
Qed.

Lemma heisenberg_biadditive : biadditive heisenberg.
Proof.
  split; intros [[a b] c] [[a' b'] c'] [[a'' b''] c'']; simpl;
    f_equal; lia.
Qed.

Lemma heisenberg_converts : converts heisenberg.
Proof. split; reflexivity. Qed.

Lemma veq_zero (x : vec) : veq x (0, 0, 0) = true <-> x = (0, 0, 0).
Proof.
  destruct x as [[a b] c]. simpl. rewrite !andb_true_iff, !Z.eqb_eq.
  split; [intros [[-> ->] ->]; reflexivity|].
  intros H. injection H as -> -> ->. auto.
Qed.

(** C1 on the Heisenberg parent, [X = 2p], [Y = 2q]. *)
Lemma bch_sums_generator_terms_witness :
  in_Nilpotent heisenberg = true
  /\ heis_bch_iterator (2, 0, 0) (0, 2, 0) = Finite [(2, 2, 0); (0, 0, 2)]
  /\ bch heisenberg heis_bch_iterator 3 (2, 0, 0) (0, 2, 0) None
     = {| answer := Ok (2, 2, 2); taken := 2 |}
  /\ bch heisenberg heis_bch_iterator 0 (2, 0, 0) (0, 2, 0) (Some 1)
     = {| answer := Ok (2, 2, 0); taken := 1 |}
  /\ taken (bch heisenberg heis_bch_iterator 0 (2, 0, 0) (0, 2, 0) (Some 2)) = 2%nat.
Proof.
  split; [reflexivity|]. split; [reflexivity|]. split; [|split].
  - apply (proj1 (bch_sums_generator_terms heisenberg heis_bch_iterator
                    (2, 0, 0) (0, 2, 0)) [(2, 2, 0); (0, 0, 2)] 3%nat);
      [reflexivity|reflexivity|simpl; lia].
  - apply (proj1 (proj2 (bch_sums_generator_terms heisenberg heis_bch_iterator
                           (2, 0, 0) (0, 2, 0)) 1 0%nat)).
  - apply (proj2 (proj2 (proj2 (bch_sums_generator_terms heisenberg
             heis_bch_iterator (2, 0, 0) (0, 2, 0)) 2 0%nat))).
    intros [|[|k]] Hk; [discriminate|discriminate|simpl in Hk; lia].
Defined.

(** C2 on the cross-product parent (error) and the Heisenberg parent. *)
Lemma bch_precision_required_witness :
  in_Nilpotent cross = false
  /\ bch cross cross_bch_iterator 5 (1, 0, 0) (0, 1, 0) None
     = {| answer := Raise precision_required; taken := 0 |}
  /\ in_Nilpotent heisenberg = true
  /\ answer (bch heisenberg heis_bch_iterator 5 (2, 0, 0) (0, 2, 0) None)
     <> Raise precision_required.
Proof.
  split; [reflexivity|]. split; [|split; [reflexivity|]].
  - apply (proj1 (bch_precision_required cross cross_bch_iterator
                    (1, 0, 0) (0, 1, 0) 5)). reflexivity.
  - apply (proj2 (bch_precision_required heisenberg heis_bch_iterator
                    (2, 0, 0) (0, 2, 0) 5)). reflexivity.
Defined.

(** C3 on the Heisenberg parent (step 2): with a zero third term and
    [prec = 2], and with the two-term generator and [prec = 7]. *)
Lemma bch_default_agrees_from_step_witness :
  in_Nilpotent heisenberg = true
  /\ step heisenberg = Some 2
  /\ heis_bch_iterator3 (2, 0, 0) (0, 2, 0)
     = Finite [(2, 2, 0); (0, 0, 2); (0, 0, 0)]
  /\ (exists v : vec,
        answer (bch heisenberg heis_bch_iterator3 4 (2, 0, 0) (0, 2, 0) None) = Ok v
        /\ answer (bch heisenberg heis_bch_iterator3 4 (2, 0, 0) (0, 2, 0) (Some 2))
           = Ok v)
  /\ (exists v : vec,
        answer (bch heisenberg heis_bch_iterator 4 (2, 0, 0) (0, 2, 0) None) = Ok v
        /\ answer (bch heisenberg heis_bch_iterator 4 (2, 0, 0) (0, 2, 0) (Some 7))
           = Ok v).
Proof.
  split; [reflexivity|]. split; [reflexivity|]. split; [reflexivity|]. split.
  - apply (@bch_default_agrees_from_step _ heisenberg heis_bch_iterator3
             (2, 0, 0) (0, 2, 0) [(2, 2, 0); (0, 0, 2); (0, 0, 0)] 2);
      [reflexivity|reflexivity|exact vadd_zero_r|reflexivity| |lia|simpl; lia].
    intros [|[|[|[|k]]]] z Hk Hz; simpl in Hk, Hz; try lia; try discriminate.
    now injection Hz as <-.
  - apply (@bch_default_agrees_from_step _ heisenberg heis_bch_iterator
             (2, 0, 0) (0, 2, 0) [(2, 2, 0); (0, 0, 2)] 2);
      [reflexivity|reflexivity|exact vadd_zero_r|reflexivity| |lia|simpl; lia].
    intros [|[|[|k]]] z Hk Hz; simpl in Hk, Hz; try lia; discriminate.
Defined.

(** C4: the four operand shapes on the Heisenberg parent. *)
Lemma bracket_dispatch_witness :
  bracket heisenberg heis_product_space (default_ideal heisenberg)
    (LieAlgebraLike [(1, 0, 0); (0, 1, 0)]) (LieAlgebraLike [(1, 0, 0); (0, 1, 0)])
  = Ok (LieAlgebraLike [(0, 0, 0); (0, 0, 1); (0, 0, -1); (0, 0, 0)])
  /\ bracket heisenberg heis_product_space (default_ideal heisenberg)
       (LieAlgebraLike [(1, 0, 0); (0, 1, 0)]) (Element (3, 0, 0))
     = Raise (NotImplementedError "ideals not yet implemented: see #16824")
  /\ bracket heisenberg heis_product_space (default_ideal heisenberg)
       (Element (1, 1, 0)) (LieAlgebraLike [(1, 0, 0); (0, 1, 0)])
     = Raise (NotImplementedError "ideals not yet implemented: see #16824")
  /\ bracket heisenberg heis_product_space (default_ideal heisenberg)
       (Element (1, 0, 0)) (Element (1, 1, 0))
     = Ok (Element (0, 0, 1)).
Proof.
  split; [|split; [|split]].
  - apply (proj1 (bracket_dispatch heisenberg heis_product_space
       (default_ideal heisenberg) (LieAlgebraLike [(1, 0, 0); (0, 1, 0)])
       (LieAlgebraLike [(1, 0, 0); (0, 1, 0)]))). split; reflexivity.
  - apply (proj1 (proj2 (bracket_dispatch heisenberg heis_product_space
       (default_ideal heisenberg) (LieAlgebraLike [(1, 0, 0); (0, 1, 0)])
       (Element (3, 0, 0))))). split; reflexivity.
  - apply (proj1 (proj2 (proj2 (bracket_dispatch heisenberg heis_product_space
       (default_ideal heisenberg) (Element (1, 1, 0))
       (LieAlgebraLike [(1, 0, 0); (0, 1, 0)]))))). split; reflexivity.
  - apply (proj2 (proj2 (proj2 (bracket_dispatch heisenberg heis_product_space
       (default_ideal heisenberg) (Element (1, 0, 0)) (Element (1, 1, 0)))))).
    split; reflexivity.
Defined.

(** C5 at the element [p + 2q + 3z] of the Heisenberg parent. *)
Lemma bracket_with_zero_witness :
  additive_group heisenberg
  /\ biadditive heisenberg
  /\ converts heisenberg
  /\ bracket heisenberg heis_product_space (default_ideal heisenberg)
       (Element (1, 2, 3)) (Integer 0) = Ok (Element (0, 0, 0))
  /\ bracket heisenberg heis_product_space (default_ideal heisenberg)
       (Integer 0) (Element (1, 2, 3)) = Ok (Element (0, 0, 0)).
Proof.
  split; [exact heisenberg_additive_group|].
  split; [exact heisenberg_biadditive|].
  split; [exact heisenberg_converts|].
  pose proof (@bracket_with_zero _ heisenberg heis_product_space
                (default_ideal heisenberg) heisenberg_additive_group heisenberg_biadditive
                heisenberg_converts (1, 2, 3)) as (Hr & Hl & _).
  split; [exact Hr|exact Hl].
Defined.

(** C6 on the Heisenberg parent (finite generators) and on the
    cross-product parent (generators handed over as a plain tuple). *)
Lemma is_abelian_spec_witness :
  decides_zero heisenberg
  /\ (exists b : bool,
        is_abelian heisenberg = Ok b
        /\ (b = true <->
            forall x y, In x [(1, 0, 0); (0, 1, 0)] -> In y [(1, 0, 0); (0, 1, 0)] ->
                        heis_bracket x y = (0, 0, 0)))
  /\ decides_zero cross
  /\ is_abelian cross = Raise (NotImplementedError "infinite number of generators").
Proof.
  split; [exact veq_zero|]. split; [|split; [exact veq_zero|]].
  - apply (proj1 (is_abelian_spec (L := heisenberg) veq_zero)
             [(1, 0, 0); (0, 1, 0)]). reflexivity.
  - apply (proj2 (is_abelian_spec (L := cross) veq_zero)). reflexivity.
Defined.

(** C10 on the same two parents. *)
Lemma is_commutative_is_abelian_witness :
  (exists b : bool, is_abelian heisenberg = Ok b /\ is_commutative heisenberg = Ok b)
  /\ is_commutative cross
     = Raise (NotImplementedError "infinite number of generators").
Proof.
  split.
  - apply (proj1 (proj2 (is_commutative_is_abelian heisenberg))). reflexivity.
  - apply (proj2 (proj2 (proj2 (is_commutative_is_abelian cross)) eq_refl)).
Defined.

End ExamplesFacts.

(* ------------------------------------------------------------------ *)
(** ** Properties of subfield subcodes *)

Module SubfieldSubcodesFacts.

Import SubfieldSubcodes.

(** *** Logarithms and divisibility *)

Lemma exact_log_aux_pow (m : Z) :
  2 <= m ->
  forall (e fuel : nat),
    (e <= fuel)%nat ->
    exact_log_aux fuel (m ^ Z.of_nat e) m = Z.of_nat e.
Proof.
  intros Hm. induction e as [|e IH]; intros fuel Hfuel.
  - destruct fuel as [|fuel]; [reflexivity|].
    cbn [exact_log_aux]. change (m ^ Z.of_nat 0) with 1.
    destruct (Z.ltb_spec 1 m); [reflexivity|lia].
  - destruct fuel as [|fuel]; [lia|].
    cbn [exact_log_aux].
    rewrite Nat2Z.inj_succ, Z.pow_succ_r by lia.
    assert (Hpos : 0 < m ^ Z.of_nat e) by (apply Z.pow_pos_nonneg; lia).
    destruct (Z.ltb_spec (m * m ^ Z.of_nat e) m) as [Hlt|_]; [nia|].
    rewrite Z.mul_comm, Z.div_mul by lia.
    rewrite IH by lia. lia.
Qed.

Lemma exact_log_pow (m e : Z) :
  2 <= m -> 0 <= e -> exact_log (m ^ e) m = e.
Proof.
  intros Hm He. unfold exact_log.
  rewrite <- (Z2Nat.id e He) at 2 3.
  apply exact_log_aux_pow; [exact Hm|].
  pose proof (Z.pow_gt_lin_r m e ltac:(lia) He). lia.
Qed.

(** On an exact power of the base, [log] is the exponent. *)
Lemma log_pow (m e : Z) :
  2 <= m -> 0 <= e -> log (m ^ e) m = Some e.
Proof.
  intros Hm He. unfold log. rewrite (exact_log_pow Hm He).
  assert (0 < m ^ e) by (apply Z.pow_pos_nonneg; lia).
  rewrite Z.eqb_refl.
  destruct (Z.leb_spec 2 m); [|lia].
  destruct (Z.leb_spec 1 (m ^ e)); [reflexivity|lia].
Qed.

Lemma divides_spec (s sm : Z) : divides s sm = true <-> (s | sm).
Proof.
  unfold divides. destruct (Z.eqb_spec s 0) as [->|Hs].
  - rewrite Z.eqb_eq. split; [intros ->; apply Z.divide_0_r|apply Z.divide_0_l].
  - rewrite Z.eqb_eq. now apply Z.mod_divide.
Qed.

(** *** The constructor *)

(** What [__init__] does on a linear code and a finite subfield whose
    orders are the powers [p ^ s] and [p ^ sm] of the subfield's
    characteristic. *)
Lemma __init___on_powers (C : LinearCode) (subfield : Field) (p s sm : Z) :
  2 <= p -> 0 <= s -> 0 <= sm ->
  is_finite subfield = true ->
  characteristic subfield = p ->
  order subfield = p ^ s ->
  order (base_field C) = p ^ sm ->
  __init__ (Code C) subfield
  = if divides s sm
    then Ok {| _original_code := C;
               sub_base_field := subfield;
               sub_length := length C;
               default_encoder_name := "ParityCheck";
               default_decoder_name := "Syndrome" |}
    else Raise (ValueError
           "subfield has to be a subfield of the base field of the original code").
Proof.
  intros Hp Hs Hsm Hfin Hchar Hord Hbase. unfold __init__.
  rewrite Hfin, Hchar, Hord, Hbase. cbn [negb].
  rewrite !log_pow by assumption.
  now destruct (divides s sm).
Qed.



Lemma __init___Ok (C : LinearCode) (subfield : Field) (self : SubfieldSubcode) :
  __init__ (Code C) subfield = Ok self ->
  original_code self = C /\ sub_base_field self = subfield.
Proof.
  unfold __init__.
  destruct (negb (is_finite subfield)); [discriminate|].
  destruct (log (order subfield) (characteristic subfield)) as [s|];
    [|discriminate].
  destruct (log (order (base_field C)) (characteristic subfield)) as [sm|];
    [|discriminate].
  destruct (negb (divides s sm)); [discriminate|].
  intros H. injection H as <-. now split.
Qed.

(** *** Dimension bounds *)

(** C8.  On a subcode built from a code of length [n] and dimension [k]
    over a field of order [p ^ sm] and characteristic [p], and a subfield of
    order [p ^ s]: the upper bound is [k]; the lower bound is
    [n - t * (n - k)] with [t] the exact base-[p] logarithm of the quotient
    of the two orders, as an integer that is not clamped. *)
Theorem dimension_bounds (C : LinearCode) (subfield : Field)
  (self : SubfieldSubcode) (p s sm : Z) :
  2 <= p -> 1 <= s -> 1 <= sm ->
  characteristic subfield = p ->
  order subfield = p ^ s ->
  characteristic (base_field C) = p ->
  order (base_field C) = p ^ sm ->
  __init__ (Code C) subfield = Ok self ->
  dimension_upper_bound self = dimension C
  /\ dimension_upper_bound self <= dimension C
  /\ exists t : Z,
       0 <= t
       /\ p ^ t = order (base_field C) / order subfield
       /\ p ^ t * order subfield = order (base_field C)
       /\ dimension_lower_bound self
          = Some (length C - t * (length C - dimension C)).
Proof.
  intros Hp Hs Hsm Hchar Hord HcharC HordC Hinit.
  destruct (__init___Ok C subfield Hinit) as [HC HF].
  assert (Hfin : is_finite subfield = true).
  { unfold __init__ in Hinit. destruct (is_finite subfield); [reflexivity|].
    discriminate. }
  assert (Hs0 : 0 <= s) by lia.
  assert (Hsm0 : 0 <= sm) by lia.
  rewrite (__init___on_powers C subfield Hp Hs0 Hsm0 Hfin Hchar Hord HordC)
    in Hinit.
  destruct (divides s sm) eqn:Hdiv; [|discriminate].
  apply divides_spec in Hdiv.
  assert (Hle : s <= sm) by (apply Z.divide_pos_le; [lia|exact Hdiv]).
  assert (Hquot : p ^ (sm - s) = p ^ sm / p ^ s)
    by (apply Z.pow_sub_r; lia).
  unfold dimension_upper_bound, dimension_lower_bound. rewrite HC, HF.
  split; [reflexivity|]. split; [lia|].
  exists (sm - s). split; [lia|].
  rewrite HordC, Hord, HcharC. split; [exact Hquot|]. split.
  - rewrite <- Z.pow_add_r by lia. f_equal. lia.
  - rewrite <- Hquot, log_pow by lia. reflexivity.
Qed.

(** *** Equality *)

(** C9.  Two subcodes are equal exactly when their original codes are equal
    by the original code's own equality and their base fields have the same
    order; so two subcodes built from one original code and two subfields of
    the same order are equal. *)
Theorem __eq___spec (code_eq : LinearCode -> LinearCode -> bool)
  (A B : SubfieldSubcode) :
  (__eq__ code_eq A (Subcode B) = true
   <-> code_eq (original_code A) (original_code B) = true
       /\ order (sub_base_field A) = order (sub_base_field B))
  /\ (forall (C : LinearCode) (F1 F2 : Field),
       code_eq C C = true ->
       order F1 = order F2 ->
       __init__ (Code C) F1 = Ok A ->
       __init__ (Code C) F2 = Ok B ->
       __eq__ code_eq A (Subcode B) = true).
Proof.
  assert (Hiff : __eq__ code_eq A (Subcode B) = true
                 <-> code_eq (original_code A) (original_code B) = true
                     /\ order (sub_base_field A) = order (sub_base_field B)).
  { cbn [__eq__]. now rewrite andb_true_iff, Z.eqb_eq. }
  split; [exact Hiff|].
  intros C F1 F2 Hrefl Hord HA HB. apply Hiff.
  destruct (__init___Ok C F1 HA) as [-> ->].
  destruct (__init___Ok C F2 HB) as [-> ->].
  now split.
Qed.

(** *** The docstring examples *)


(** C8 on the [7, 3] code over [GF(16)] and the subfield [GF(4)]. *)
Lemma dimension_bounds_witness :
  __init__ (Code C_7_3_GF16) (GF 2 2 "a") = Ok (Cs "a")
  /\ dimension_upper_bound (Cs "a") = 3
  /\ dimension_upper_bound (Cs "a") <= 3
  /\ exists t : Z,
       0 <= t
       /\ 2 ^ t = 2 ^ 4 / 2 ^ 2
       /\ 2 ^ t * 2 ^ 2 = 2 ^ 4
       /\ dimension_lower_bound (Cs "a") = Some (7 - t * (7 - 3)).
Proof.
  split; [reflexivity|].
  apply (@dimension_bounds C_7_3_GF16 (GF 2 2 "a") (Cs "a") 2 2 4);
    try lia; reflexivity.
Defined.

(** The docstring value of the lower bound: it is negative. *)
Example dimension_lower_bound_docstring :
  dimension_lower_bound (Cs "a") = Some (-1).
Proof. reflexivity. Qed.

(** C9: the subfields [GF(4, a)] and [GF(4, b)] over one original code. *)
Lemma __eq___spec_witness :
  GF 2 2 "a" <> GF 2 2 "b"
  /\ code_eqb C_7_3_GF16 C_7_3_GF16 = true
  /\ order (GF 2 2 "a") = order (GF 2 2 "b")
  /\ __init__ (Code C_7_3_GF16) (GF 2 2 "a") = Ok (Cs "a")
  /\ __init__ (Code C_7_3_GF16) (GF 2 2 "b") = Ok (Cs "b")
  /\ __eq__ code_eqb (Cs "a") (Subcode (Cs "b")) = true.
Proof.
  split; [discriminate|].
  split; [reflexivity|]. split; [reflexivity|].
  split; [reflexivity|]. split; [reflexivity|].
  apply (proj2 (__eq___spec code_eqb (Cs "a") (Cs "b"))
           C_7_3_GF16 (GF 2 2 "a") (GF 2 2 "b")); reflexivity.
Defined.

End SubfieldSubcodesFacts.

(* ------------------------------------------------------------------ *)
(** ** Further properties of the Lie algebra methods *)

Module LieAlgebrasMoreFacts.

Import LieAlgebras LieAlgebrasMore LieAlgebrasFacts.

(** *** More on the Baker-Campbell-Hausdorff sum *)

Lemma firstn_snoc (E : Type) (ts : list E) :
  forall (n : nat) (z : E),
    nth_error ts n = Some z -> firstn (S n) ts = firstn n ts ++ [z].
Proof.
  induction ts as [|t ts IH]; intros [|n] z H; simpl in H; try discriminate.
  - injection H as ->. now destruct ts.
  - cbn [firstn app]. f_equal. now apply IH.
Qed.

Lemma first_terms_snoc (E : Type) (b : terms E) (n : nat) (z : E) :
  term_at b n = Some z -> first_terms (S n) b = first_terms n b ++ [z].
Proof.
  unfold first_terms. destruct b as [ts|t]; cbn [terms_from term_at skipn].
  - apply firstn_snoc.
  - intros H. injection H as <-. now rewrite seq_S, map_app.
Qed.

(** X1.  [bch] with a precision of zero or less returns the zero element and
    takes nothing from the generator, on any parent. *)
Theorem bch_nonpositive_prec (A : Type) (L : LieAlgebra A)
  (bch_iterator : Elt L -> Elt L -> terms (Elt L)) (X Y : Elt L)
  (prec : Z) (fuel : nat) :
  prec <= 0 ->
  bch L bch_iterator fuel X Y (Some prec)
  = {| answer := Ok (zero L); taken := 0 |}.
Proof.
  intros Hprec. rewrite bch_explicit_run.
  replace (Z.to_nat prec) with 0%nat by lia.
  unfold first_terms. now destruct (bch_iterator X Y).
Qed.

(** X2.  Raising the precision by one adds exactly the next term of the
    generator to the answer, and takes exactly one more term. *)
Theorem bch_next_prec (A : Type) (L : LieAlgebra A)
  (bch_iterator : Elt L -> Elt L -> terms (Elt L)) (X Y : Elt L)
  (prec : Z) (fuel : nat) (z : Elt L) :
  0 <= prec ->
  term_at (bch_iterator X Y) (Z.to_nat prec) = Some z ->
  exists v : Elt L,
    answer (bch L bch_iterator fuel X Y (Some prec)) = Ok v
    /\ answer (bch L bch_iterator fuel X Y (Some (prec + 1))) = Ok (add L v z)
    /\ taken (bch L bch_iterator fuel X Y (Some (prec + 1)))
       = S (taken (bch L bch_iterator fuel X Y (Some prec))).
Proof.
  intros Hprec Hz. rewrite !bch_explicit_run. cbn [answer taken].
  replace (Z.to_nat (prec + 1)) with (S (Z.to_nat prec)) by lia.
  rewrite (first_terms_snoc _ _ Hz).
  eexists. split; [reflexivity|]. split.
  - unfold sum. now rewrite fold_left_app.
  - rewrite length_app. cbn [List.length]. lia.
Qed.

(** X3.  On a parent in [Nilpotent] whose generator never ends, [bch] without
    [prec] gives no answer, however long it runs. *)
Theorem bch_endless_generator (A : Type) (L : LieAlgebra A)
  (bch_iterator : Elt L -> Elt L -> terms (Elt L)) (X Y : Elt L)
  (t : nat -> Elt L) :
  in_Nilpotent L = true ->
  bch_iterator X Y = Infinite t ->
  forall fuel : nat, answer (bch L bch_iterator fuel X Y None) = Unfinished.
Proof.
  intros Hnil Ht fuel. unfold bch, iter. rewrite Hnil, Ht.
  cbn [negb andb answer]. now rewrite drain_Infinite.
Qed.

(** X4.  A precision that reaches or passes the end of a finite generator gives
    the sum of all its terms, on any parent. *)
Theorem bch_prec_past_end (A : Type) (L : LieAlgebra A)
  (bch_iterator : Elt L -> Elt L -> terms (Elt L)) (X Y : Elt L)
  (ts : list (Elt L)) (prec : Z) (fuel : nat) :
  bch_iterator X Y = Finite ts ->
  Z.of_nat (List.length ts) <= prec ->
  bch L bch_iterator fuel X Y (Some prec)
  = {| answer := Ok (sum L ts); taken := List.length ts |}.
Proof.
  intros Hts Hprec. rewrite bch_explicit_run, Hts.
  unfold first_terms, terms_from. cbn [skipn].
  now rewrite firstn_all2 by lia.
Qed.

(** *** More on the bracket dispatch *)

(** X5.  With one Lie-algebra-like operand and one plain operand, the order of
    the two operands does not matter. *)
Theorem bracket_mixed_either_order (A : Type) (self : LieAlgebra A)
  (product_space ideal :
     object (Elt self) A -> object (Elt self) A -> result (object (Elt self) A))
  (lhs rhs : object (Elt self) A) :
  xorb (in_LieAlgebras lhs) (in_LieAlgebras rhs) = true ->
  bracket self product_space ideal lhs rhs
  = bracket self product_space ideal rhs lhs.
Proof.
  unfold bracket.
  destruct (in_LieAlgebras lhs), (in_LieAlgebras rhs); simpl;
    intros H; try discriminate; reflexivity.
Qed.

(** X6.  With the [ideal] method of the category itself, the bracket of a
    Lie-algebra-like operand and a plain one raises the not-implemented
    error of [ideal]. *)
Theorem bracket_mixed_default_ideal (A : Type) (self : LieAlgebra A)
  (product_space :
     object (Elt self) A -> object (Elt self) A -> result (object (Elt self) A))
  (lhs rhs : object (Elt self) A) :
  xorb (in_LieAlgebras lhs) (in_LieAlgebras rhs) = true ->
  bracket self product_space (default_ideal self) lhs rhs
  = Raise (NotImplementedError "ideals not yet implemented: see #16824").
Proof.
  unfold bracket, default_ideal.
  destruct (in_LieAlgebras lhs), (in_LieAlgebras rhs); simpl;
    intros H; try discriminate; reflexivity.
Qed.

(** *** Consequences of the laws *)

Section Laws.

Variable A : Type.
Variable L : LieAlgebra A.
Hypothesis Hgroup : additive_group L.
Hypothesis Hbracket : biadditive L.

Lemma add_neg_l (a : Elt L) : add L (neg L a) a = zero L.
Proof.
  destruct Hgroup as (Hassoc & H0 & Hneg).
  transitivity (add L (add L (neg L a) a)
                      (add L (neg L a) (neg L (neg L a)))).
  - now rewrite Hneg, H0.
  - rewrite Hassoc, <- (Hassoc (neg L a) a (neg L a)), Hneg, H0. apply Hneg.
Qed.

Lemma add_zero_l (a : Elt L) : add L (zero L) a = a.
Proof.
  destruct Hgroup as (Hassoc & H0 & Hneg).
  rewrite <- (Hneg a), <- Hassoc, add_neg_l. apply H0.
Qed.

Lemma _bracket__neg_r (x a : Elt L) :
  _bracket_ L x a = zero L -> _bracket_ L x (neg L a) = zero L.
Proof.
  intros Ha.
  transitivity (add L (_bracket_ L x a) (_bracket_ L x (neg L a))).
  - now rewrite Ha, add_zero_l.
  - rewrite <- (proj1 Hbracket), (proj2 (proj2 Hgroup)).
    apply (_bracket__zero_r Hgroup Hbracket).
Qed.

Lemma _bracket__neg_l (x a : Elt L) :
  _bracket_ L a x = zero L -> _bracket_ L (neg L a) x = zero L.
Proof.
  intros Ha.
  transitivity (add L (_bracket_ L a x) (_bracket_ L (neg L a) x)).
  - now rewrite Ha, add_zero_l.
  - rewrite <- (proj2 Hbracket), (proj2 (proj2 Hgroup)).
    apply (_bracket__zero_l Hgroup Hbracket).
Qed.

(** Brackets vanish on the additive span of a list once they vanish on the
    list. *)
Lemma _bracket__spanned (G : list (Elt L)) :
  (forall x y, In x G -> In y G -> _bracket_ L x y = zero L) ->
  forall x y, spanned L G x -> spanned L G y -> _bracket_ L x y = zero L.
Proof.
  intros HG x y Hx. revert y.
  induction Hx as [x Hin| |x x' _ IHx _ IHx'|x _ IHx]; intros y Hy.
  - induction Hy as [y Hin'| |y y' _ IHy _ IHy'|y _ IHy].
    + now apply HG.
    + apply (_bracket__zero_r Hgroup Hbracket).
    + rewrite (proj1 Hbracket), IHy, IHy'. apply (proj1 (proj2 Hgroup)).
    + now apply _bracket__neg_r.
  - apply (_bracket__zero_l Hgroup Hbracket).
  - rewrite (proj2 Hbracket), (IHx y Hy), (IHx' y Hy).
    apply (proj1 (proj2 Hgroup)).
  - apply _bracket__neg_l. now apply IHx.
Qed.

Lemma generated_spanned (G : list (Elt L)) :
  (forall x y, In x G -> In y G -> _bracket_ L x y = zero L) ->
  forall x, generated L G x -> spanned L G x.
Proof.
  intros HG x Hx.
  induction Hx as [x Hin| |x y _ IHx _ IHy|x _ IHx|x y _ IHx _ IHy].
  - now apply spanned_gen.
  - apply spanned_zero.
  - now apply spanned_add.
  - now apply spanned_neg.
  - rewrite (_bracket__spanned HG IHx IHy). apply spanned_zero.
Qed.

Hypothesis Halt : alternating L.

Lemma _bracket__antisymmetric (x z : Elt L) :
  add L (_bracket_ L x z) (_bracket_ L z x) = zero L.
Proof.
  rewrite <- (Halt (add L x z)).
  rewrite (proj2 Hbracket), !(proj1 Hbracket), !Halt.
  now rewrite add_zero_l, (proj1 (proj2 Hgroup)).
Qed.

(** The Jacobi sum of a triple whose first two entries coincide is zero. *)
Lemma jacobi_sum_repeated (x z : Elt L) : jacobi_sum L x x z = zero L.
Proof.
  unfold jacobi_sum.
  rewrite <- (proj1 Hbracket), _bracket__antisymmetric, Halt.
  rewrite !(_bracket__zero_r Hgroup Hbracket).
  apply (proj1 (proj2 Hgroup)).
Qed.

End Laws.

(** *** Abelian on everything generated *)

(** X7.  When [is_abelian] answers true, the bracket of any two elements built
    from the generators with [+], negation and brackets is zero. *)
Theorem is_abelian_on_generated (A : Type) (L : LieAlgebra A)
  (G : list (Elt L)) :
  additive_group L ->
  biadditive L ->
  decides_zero L ->
  lie_algebra_generators L = FiniteEnumerated G ->
  is_abelian L = Ok true ->
  forall x y, generated L G x -> generated L G y -> _bracket_ L x y = zero L.
Proof.
  intros Hg Hb Hz HG Habelian x y Hx Hy.
  assert (Hgens : forall u v, In u G -> In v G -> _bracket_ L u v = zero L).
  { unfold is_abelian in Habelian. rewrite HG in Habelian.
    injection Habelian as Hall. rewrite forallb_pairs in Hall.
    intros u v Hu Hv. apply Hz. now apply Hall. }
  apply (_bracket__spanned Hg Hb Hgens);
    now apply (generated_spanned Hg Hb Hgens).
Qed.

(** *** The self-tests *)

Lemma for_each_Passes (X : Type) (body : X -> outcome) (xs : list X) :
  for_each xs body = Passes <-> (forall x, In x xs -> body x = Passes).
Proof.
  induction xs as [|x xs IH]; cbn [for_each].
  - split; [intros _ x []|reflexivity].
  - split.
    + intros H y [<-|Hy].
      * now destruct (body x).
      * apply IH; [|exact Hy]. now destruct (body x).
    + intros H. rewrite (H x (or_introl eq_refl)).
      apply IH. intros y Hy. apply H. now right.
Qed.

Lemma for_each_asserts (X : Type) (body : X -> outcome) (xs : list X) :
  (forall x, In x xs -> body x = Passes \/ body x = AssertionError) ->
  for_each xs body = Passes \/ for_each xs body = AssertionError.
Proof.
  induction xs as [|x xs IH]; cbn [for_each]; intros H; [now left|].
  destruct (H x (or_introl eq_refl)) as [-> | ->]; [|now right].
  apply IH. intros y Hy. apply H. now right.
Qed.

Section SelfTestsFacts.

Variable A : Type.
Variable L : LieAlgebra A.
Variable product_space ideal :
  object (Elt L) A -> object (Elt L) A -> result (object (Elt L) A).
Hypothesis Hconverts : converts L.

Lemma bracket_elements (x y : Elt L) :
  bracket L product_space ideal (Element x) (Element y)
  = Ok (Element (_bracket_ L x y)).
Proof.
  unfold bracket. cbn [in_LieAlgebras].
  now rewrite !(proj1 Hconverts).
Qed.

Lemma jacobi_elements (x y z : Elt L) :
  jacobi L product_space ideal (Element x) (Element y) (Element z)
  = Ok (Element (jacobi_sum L x y z)).
Proof.
  unfold jacobi.
  repeat (rewrite bracket_elements; cbn [bind obj_add]).
  reflexivity.
Qed.

Lemma assertTrue_jacobi (x y z : Elt L) :
  assertTrue (v <- jacobi L product_space ideal (Element x) (Element y) (Element z) ;;
              Ok (obj_eq L v (Element (zero L))))
  = if elt_eq L (jacobi_sum L x y z) (zero L) then Passes else AssertionError.
Proof. now rewrite jacobi_elements. Qed.

Lemma assertTrue_bracket (x : Elt L) :
  assertTrue (v <- bracket L product_space ideal (Element x) (Element x) ;;
              Ok (obj_eq L v (Element (zero L))))
  = if elt_eq L (_bracket_ L x x) (zero L) then Passes else AssertionError.
Proof. now rewrite bracket_elements. Qed.

End SelfTestsFacts.

(** X8.  [_test_jacobi_identity] passes exactly when the Jacobi sum is zero on
    every triple of sample elements whose first two entries are not [==];
    otherwise it ends in an [AssertionError]. *)
Theorem _test_jacobi_identity_spec (A : Type) (L : LieAlgebra A)
  (product_space ideal :
     object (Elt L) A -> object (Elt L) A -> result (object (Elt L) A))
  (elts : list (Elt L)) :
  converts L ->
  decides_zero L ->
  (_test_jacobi_identity L product_space ideal elts = Passes
   <-> (forall x y z, In x elts -> In y elts -> In z elts ->
                      elt_eq L x y = false -> jacobi_sum L x y z = zero L))
  /\ (_test_jacobi_identity L product_space ideal elts = Passes
      \/ _test_jacobi_identity L product_space ideal elts = AssertionError).
Proof.
  intros Hc Hz. unfold _test_jacobi_identity. split; [split|].
  - intros H x y z Hx Hy Hin Hxy.
    pose proof (proj1 (for_each_Passes _ _) H x Hx) as H1.
    pose proof (proj1 (for_each_Passes _ _) H1 y Hy) as H2.
    cbv beta in H2. rewrite Hxy in H2.
    pose proof (proj1 (for_each_Passes _ _) H2 z Hin) as H3.
    cbv beta in H3. rewrite (assertTrue_jacobi product_space ideal Hc) in H3.
    apply Hz. now destruct (elt_eq L (jacobi_sum L x y z) (zero L)).
  - intros H. apply for_each_Passes. intros x Hx.
    apply for_each_Passes. intros y Hy.
    destruct (elt_eq L x y) eqn:Hxy; [reflexivity|].
    apply for_each_Passes. intros z Hin.
    rewrite (assertTrue_jacobi product_space ideal Hc).
    now rewrite (proj2 (Hz _) (H x y z Hx Hy Hin Hxy)).
  - apply for_each_asserts. intros x _.
    apply for_each_asserts. intros y _.
    destruct (elt_eq L x y); [now left|].
    apply for_each_asserts. intros z _.
    rewrite (assertTrue_jacobi product_space ideal Hc).
    destruct (elt_eq L (jacobi_sum L x y z) (zero L)); [now left|now right].
Qed.

(** X9.  On a parent whose bracket is biadditive and alternating, a passing
    [_test_jacobi_identity] gives the Jacobi identity on every triple of
    sample elements, the skipped triples with equal first entries
    included. *)
Theorem _test_jacobi_identity_all_triples (A : Type) (L : LieAlgebra A)
  (product_space ideal :
     object (Elt L) A -> object (Elt L) A -> result (object (Elt L) A))
  (elts : list (Elt L)) :
  additive_group L ->
  biadditive L ->
  alternating L ->
  converts L ->
  decides_eq L ->
  _test_jacobi_identity L product_space ideal elts = Passes ->
  forall x y z, In x elts -> In y elts -> In z elts ->
                jacobi_sum L x y z = zero L.
Proof.
  intros Hg Hb Halt Hc Heq H x y z Hx Hy Hin.
  destruct (elt_eq L x y) eqn:Hxy.
  - apply Heq in Hxy. subst y. now apply jacobi_sum_repeated.
  - unfold _test_jacobi_identity in H.
    pose proof (proj1 (for_each_Passes _ _) H x Hx) as H1.
    pose proof (proj1 (for_each_Passes _ _) H1 y Hy) as H2.
    cbv beta in H2. rewrite Hxy in H2.
    pose proof (proj1 (for_each_Passes _ _) H2 z Hin) as H3.
    cbv beta in H3. rewrite (assertTrue_jacobi product_space ideal Hc) in H3.
    apply Heq. now destruct (elt_eq L (jacobi_sum L x y z) (zero L)).
Qed.

(** X10.  [_test_antisymmetry] passes exactly when [[x, x]] is zero for every
    sample element; otherwise it ends in an [AssertionError]. *)
Theorem _test_antisymmetry_spec (A : Type) (L : LieAlgebra A)
  (product_space ideal :
     object (Elt L) A -> object (Elt L) A -> result (object (Elt L) A))
  (elts : list (Elt L)) :
  converts L ->
  decides_zero L ->
  (_test_antisymmetry L product_space ideal elts = Passes
   <-> (forall x, In x elts -> _bracket_ L x x = zero L))
  /\ (_test_antisymmetry L product_space ideal elts = Passes
      \/ _test_antisymmetry L product_space ideal elts = AssertionError).
Proof.
  intros Hc Hz. unfold _test_antisymmetry. split; [split|].
  - intros H x Hx.
    pose proof (proj1 (for_each_Passes _ _) H x Hx) as H1.
    cbv beta in H1. rewrite (assertTrue_bracket product_space ideal Hc) in H1.
    apply Hz. now destruct (elt_eq L (_bracket_ L x x) (zero L)).
  - intros H. apply for_each_Passes. intros x Hx.
    rewrite (assertTrue_bracket product_space ideal Hc).
    now rewrite (proj2 (Hz _) (H x Hx)).
  - apply for_each_asserts. intros x _.
    rewrite (assertTrue_bracket product_space ideal Hc).
    destruct (elt_eq L (_bracket_ L x x) (zero L)); [now left|now right].
Qed.

(** X11.  [_test_distributivity] passes exactly when the bracket distributes over
    [+] on the left and on the right at every triple it is handed. *)
Theorem _test_distributivity_spec (A : Type) (L : LieAlgebra A)
  (product_space ideal :
     object (Elt L) A -> object (Elt L) A -> result (object (Elt L) A))
  (some_tuples : list (Elt L) -> nat -> list (Elt L * Elt L * Elt L))
  (S : list (Elt L)) (max_runs : nat) :
  converts L ->
  decides_eq L ->
  (_test_distributivity L product_space ideal some_tuples S max_runs = Passes
   <-> (forall x y z, In (x, y, z) (some_tuples S max_runs) ->
          _bracket_ L x (add L y z)
          = add L (_bracket_ L x y) (_bracket_ L x z)
          /\ _bracket_ L (add L x y) z
             = add L (_bracket_ L x z) (_bracket_ L y z))).
Proof.
  intros Hc Heq. unfold _test_distributivity.
  rewrite for_each_Passes. split.
  - intros H x y z Hin. specialize (H (x, y, z) Hin). cbv beta iota in H.
    rewrite !(bracket_elements product_space ideal Hc) in H.
    cbn [bind obj_add obj_eq assertTrue] in H.
    destruct (elt_eq L (_bracket_ L x (add L y z))
                (add L (_bracket_ L x y) (_bracket_ L x z))) eqn:H1;
      [|discriminate].
    destruct (elt_eq L (_bracket_ L (add L x y) z)
                (add L (_bracket_ L x z) (_bracket_ L y z))) eqn:H2;
      [|discriminate].
    split; now apply Heq.
  - intros H [[x y] z] Hin. destruct (H x y z Hin) as [H1 H2].
    rewrite !(bracket_elements product_space ideal Hc).
    cbn [bind obj_add obj_eq assertTrue].
    now rewrite (proj2 (Heq _ _) H1), (proj2 (Heq _ _) H2).
Qed.

(** *** The lift to the enveloping algebra *)

Section LiftFacts.

Variable A : Type.
Variable self : LieAlgebra A.
Variable U : Type.
Variable _construct_UEA : result U.

(** Once the attribute is set, every access answers from it and changes
    nothing. *)
Lemma run_cached (M : LiftMorphism A U) :
  forall (accesses : list access) (w : world A U),
    lift_attribute w = Some M ->
    run self _construct_UEA accesses w
    = (map (fun _ => Ok (codomain M)) accesses, w).
Proof.
  induction accesses as [|a accesses IH]; intros w Hw; [reflexivity|].
  cbn [run map].
  assert (Hstep : step_access self _construct_UEA a w = (Ok (codomain M), w)).
  { destruct a; unfold step_access, universal_enveloping_algebra, lift;
      now rewrite Hw. }
  now rewrite Hstep, (IH w Hw).
Qed.

(** While [_construct_UEA] raises, every access raises, calls it again and
    leaves nothing behind. *)
Lemma run_raising (e : exn) :
  _construct_UEA = Raise e ->
  forall (accesses : list access) (n : nat),
    run self _construct_UEA accesses
        {| lift_attribute := None; coercions := []; UEA_calls := n |}
    = (map (fun _ => Raise e) accesses,
       {| lift_attribute := None; coercions := [];
          UEA_calls := n + List.length accesses |}).
Proof.
  intros He. induction accesses as [|a accesses IH]; intros n.
  - cbn [run map List.length]. now rewrite Nat.add_0_r.
  - cbn [run map List.length].
    assert (Hstep : step_access self _construct_UEA a
                      {| lift_attribute := None; coercions := []; UEA_calls := n |}
                    = (Raise e,
                       {| lift_attribute := None; coercions := [];
                          UEA_calls := S n |})).
    { destruct a;
        unfold step_access, universal_enveloping_algebra, lift, lift_body;
        cbn [lift_attribute coercions UEA_calls]; now rewrite He. }
    rewrite Hstep, (IH (S n)). now rewrite Nat.add_succ_r.
Qed.

End LiftFacts.

(** X12.  When [_construct_UEA] succeeds, any non-empty sequence of accesses to
    [lift] and [universal_enveloping_algebra] on a fresh parent calls it
    once, registers the one lift morphism once as a coercion, and answers
    every access with the same enveloping algebra. *)
Theorem lift_constructed_once (A : Type) (self : LieAlgebra A) (U : Type)
  (_construct_UEA : result U) (u : U) (accesses : list access) :
  _construct_UEA = Ok u ->
  accesses <> [] ->
  run self _construct_UEA accesses (fresh A U)
  = (map (fun _ => Ok u) accesses,
     {| lift_attribute := Some {| domain := self; codomain := u |};
        coercions := [{| domain := self; codomain := u |}];
        UEA_calls := 1 |}).
Proof.
  intros Hu Hne. destruct accesses as [|a accesses]; [contradiction|].
  cbn [run map].
  assert (Hstep : step_access self _construct_UEA a (fresh A U)
                  = (Ok u,
                     {| lift_attribute := Some {| domain := self; codomain := u |};
                        coercions := [{| domain := self; codomain := u |}];
                        UEA_calls := 1 |})).
  { destruct a;
      unfold step_access, universal_enveloping_algebra, lift, lift_body, fresh;
      cbn [lift_attribute coercions UEA_calls]; now rewrite Hu. }
  rewrite Hstep.
  rewrite (run_cached self _construct_UEA (M := {| domain := self; codomain := u |})
             accesses
             {| lift_attribute := Some {| domain := self; codomain := u |};
                coercions := [{| domain := self; codomain := u |}];
                UEA_calls := 1 |} eq_refl).
  reflexivity.
Qed.

(** X13.  When [_construct_UEA] raises, every access raises the same error,
    nothing is stored or registered, and each access calls it anew. *)
Theorem lift_failure_leaves_nothing (A : Type) (self : LieAlgebra A) (U : Type)
  (_construct_UEA : result U) (e : exn) (accesses : list access) :
  _construct_UEA = Raise e ->
  run self _construct_UEA accesses (fresh A U)
  = (map (fun _ => Raise e) accesses,
     {| lift_attribute := None; coercions := [];
        UEA_calls := List.length accesses |}).
Proof.
  intros He. unfold fresh.
  now rewrite (run_raising self He accesses 0).
Qed.

End LieAlgebrasMoreFacts.

(* ------------------------------------------------------------------ *)
(** ** Further properties of subfield subcodes *)

Module SubfieldSubcodesMoreFacts.

Import SubfieldSubcodes SubfieldSubcodesFacts.

(** *** The constructor *)

(** X14.  The constructor checks the original code first, then the subfield,
    then the divisibility of the exponents, and names the failed check in
    its error. *)
Theorem __init___errors (C : LinearCode) (subfield : Field) (repr : string)
  (p s sm : Z) :
  __init__ (NotACode repr) subfield
  = Raise (ValueError "original_code must be a linear code")
  /\ (is_finite subfield = false ->
      __init__ (Code C) subfield
      = Raise (ValueError "subfield has to be a finite field"))
  /\ (2 <= p -> 0 <= s -> 0 <= sm ->
      is_finite subfield = true ->
      characteristic subfield = p ->
      order subfield = p ^ s ->
      order (base_field C) = p ^ sm ->
      ~ (s | sm) ->
      __init__ (Code C) subfield
      = Raise (ValueError
          "subfield has to be a subfield of the base field of the original code")).
Proof.
  split; [reflexivity|]. split.
  - intros Hfin. unfold __init__. now rewrite Hfin.
  - intros Hp Hs Hsm Hfin Hchar Hord Hbase Hdiv.
    rewrite (__init___on_powers C subfield Hp Hs Hsm Hfin Hchar Hord Hbase).
    destruct (divides s sm) eqn:Hd; [|reflexivity].
    apply divides_spec in Hd. contradiction.
Qed.

(** X15.  Whatever the arguments, a subcode that the constructor returns was
    built from a linear code, which [original_code()] gives back; its base
    field is the given subfield, which is finite; its length is the length
    of the original code. *)
Theorem __init___attributes (x : argument) (subfield : Field)
  (self : SubfieldSubcode) :
  __init__ x subfield = Ok self ->
  x = Code (original_code self)
  /\ sub_base_field self = subfield
  /\ is_finite subfield = true
  /\ sub_length self = length (original_code self)
  /\ default_encoder_name self = "ParityCheck"
  /\ default_decoder_name self = "Syndrome".
Proof.
  unfold __init__. destruct x as [C|repr]; [|discriminate].
  destruct (is_finite subfield); [|discriminate]. cbn [negb].
  destruct (log (order subfield) (characteristic subfield)) as [s|];
    [|discriminate].
  destruct (log (order (base_field C)) (characteristic subfield)) as [sm|];
    [|discriminate].
  destruct (negb (divides s sm)); [discriminate|].
  intros H. injection H as <-. repeat split.
Qed.

(** *** The dimension bounds *)

(** The value of the lower bound on a constructed subcode. *)
Lemma dimension_lower_bound_value (C : LinearCode) (subfield : Field)
  (self : SubfieldSubcode) (p s sm : Z) :
  2 <= p -> 1 <= s -> 1 <= sm ->
  characteristic subfield = p ->
  order subfield = p ^ s ->
  characteristic (base_field C) = p ->
  order (base_field C) = p ^ sm ->
  __init__ (Code C) subfield = Ok self ->
  s <= sm
  /\ dimension_upper_bound self = dimension C
  /\ dimension_lower_bound self
     = Some (length C - (sm - s) * (length C - dimension C)).
Proof.
  intros Hp Hs Hsm Hchar Hord HcharC HordC Hinit.
  destruct (__init___Ok C subfield Hinit) as [HC HF].
  assert (Hfin : is_finite subfield = true).
  { unfold __init__ in Hinit. destruct (is_finite subfield); [reflexivity|].
    discriminate. }
  assert (Hs0 : 0 <= s) by lia.
  assert (Hsm0 : 0 <= sm) by lia.
  rewrite (__init___on_powers C subfield Hp Hs0 Hsm0 Hfin Hchar Hord HordC)
    in Hinit.
  destruct (divides s sm) eqn:Hdiv; [|discriminate].
  apply divides_spec in Hdiv.
  assert (Hle : s <= sm) by (apply Z.divide_pos_le; [lia|exact Hdiv]).
  split; [exact Hle|].
  unfold dimension_upper_bound, dimension_lower_bound. rewrite HC, HF.
  split; [reflexivity|].
  rewrite HordC, Hord, HcharC, <- Z.pow_sub_r by lia.
  now rewrite log_pow by lia.
Qed.

(** X16.  Over a subfield of smaller order than the base field of a code whose
    dimension does not exceed its length, the lower bound does not exceed
    the upper bound. *)
Theorem dimension_bounds_ordered (C : LinearCode) (subfield : Field)
  (self : SubfieldSubcode) (p s sm : Z) :
  2 <= p -> 1 <= s -> s < sm ->
  characteristic subfield = p ->
  order subfield = p ^ s ->
  characteristic (base_field C) = p ->
  order (base_field C) = p ^ sm ->
  dimension C <= length C ->
  __init__ (Code C) subfield = Ok self ->
  exists lower : Z,
    dimension_lower_bound self = Some lower
    /\ lower <= dimension_upper_bound self.
Proof.
  intros Hp Hs Hlt Hchar Hord HcharC HordC Hk Hinit.
  destruct (@dimension_lower_bound_value C subfield self p s sm)
    as (_ & -> & ->); try assumption; try lia.
  eexists. split; [reflexivity|]. nia.
Qed.

(** X17.  Over a subfield of the same order as the base field, the lower bound is
    the length of the original code, above the upper bound whenever the
    dimension of the original code is below its length. *)
Theorem dimension_lower_bound_same_order (C : LinearCode) (subfield : Field)
  (self : SubfieldSubcode) (p s : Z) :
  2 <= p -> 1 <= s ->
  characteristic subfield = p ->
  order subfield = p ^ s ->
  characteristic (base_field C) = p ->
  order (base_field C) = p ^ s ->
  __init__ (Code C) subfield = Ok self ->
  dimension_lower_bound self = Some (length C)
  /\ (dimension C < length C -> dimension_upper_bound self < length C).
Proof.
  intros Hp Hs Hchar Hord HcharC HordC Hinit.
  destruct (@dimension_lower_bound_value C subfield self p s s)
    as (_ & -> & ->); try assumption.
  split; [f_equal; lia|auto].
Qed.

(** *** Equality *)

(** X18.  [==] on subfield subcodes is reflexive, symmetric and transitive as
    soon as the equality of the original codes is; an operand that is not a
    subfield subcode is never equal to one. *)
Theorem __eq___equivalence (code_eq : LinearCode -> LinearCode -> bool) :
  (forall C, code_eq C C = true) ->
  (forall C D, code_eq C D = true -> code_eq D C = true) ->
  (forall C D E, code_eq C D = true -> code_eq D E = true -> code_eq C E = true) ->
  (forall S, __eq__ code_eq S (Subcode S) = true)
  /\ (forall S T, __eq__ code_eq S (Subcode T) = true ->
                  __eq__ code_eq T (Subcode S) = true)
  /\ (forall S T V, __eq__ code_eq S (Subcode T) = true ->
                    __eq__ code_eq T (Subcode V) = true ->
                    __eq__ code_eq S (Subcode V) = true)
  /\ (forall S repr, __eq__ code_eq S (NotASubcode repr) = false).
Proof.
  intros Hrefl Hsym Htrans. cbn [__eq__]. repeat split.
  - intros S. now rewrite Hrefl, Z.eqb_refl.
  - intros S T. rewrite !andb_true_iff, !Z.eqb_eq. intros [H1 H2].
    split; [now apply Hsym|now symmetry].
  - intros S T V. rewrite !andb_true_iff, !Z.eqb_eq.
    intros [H1 H2] [H3 H4].
    split; [now apply (Htrans _ _ _ H1 H3)|congruence].
Qed.

End SubfieldSubcodesMoreFacts.

(* ------------------------------------------------------------------ *)
(** ** The further statements on the example parents and codes *)

Module MoreExamplesFacts.

Import LieAlgebras LieAlgebrasMore Examples LieAlgebrasFacts ExamplesFacts
  LieAlgebrasMoreFacts SubfieldSubcodes SubfieldSubcodesFacts
  SubfieldSubcodesMoreFacts.

Lemma veq_eq (x y : vec) : veq x y = true <-> x = y.
Proof.
  destruct x as [[a b] c], y as [[a' b'] c']. simpl.
  rewrite !andb_true_iff, !Z.eqb_eq.
  split; [intros [[-> ->] ->]; reflexivity|].
  intros H. injection H as -> -> ->. auto.
Qed.

Lemma heisenberg_alternating : alternating heisenberg.
Proof. intros [[a b] c]. simpl. f_equal. lia. Qed.

Lemma abelian3_additive_group : additive_group abelian3.
Proof. exact heisenberg_additive_group. Qed.

Lemma abelian3_biadditive : biadditive abelian3.
Proof. split; reflexivity. Qed.

(** [bch] at precision [-3] on the cross-product parent. *)
Lemma bch_nonpositive_prec_witness :
  -3 <= 0
  /\ bch cross cross_bch_iterator 0 (1, 0, 0) (0, 1, 0) (Some (-3))
     = {| answer := Ok (0, 0, 0); taken := 0 |}.
Proof.
  split; [lia|].
  apply (@bch_nonpositive_prec _ cross cross_bch_iterator
           (1, 0, 0) (0, 1, 0) (-3) 0). lia.
Defined.

(** From precision 1 to precision 2 on the Heisenberg parent. *)
Lemma bch_next_prec_witness :
  0 <= 1
  /\ term_at (heis_bch_iterator (2, 0, 0) (0, 2, 0)) (Z.to_nat 1) = Some (0, 0, 2)
  /\ exists v : vec,
       answer (bch heisenberg heis_bch_iterator 0 (2, 0, 0) (0, 2, 0) (Some 1)) = Ok v
       /\ answer (bch heisenberg heis_bch_iterator 0 (2, 0, 0) (0, 2, 0) (Some (1 + 1)))
          = Ok (vadd v (0, 0, 2))
       /\ taken (bch heisenberg heis_bch_iterator 0 (2, 0, 0) (0, 2, 0) (Some (1 + 1)))
          = S (taken (bch heisenberg heis_bch_iterator 0 (2, 0, 0) (0, 2, 0) (Some 1))).
Proof.
  split; [lia|]. split; [reflexivity|].
  apply (@bch_next_prec _ heisenberg heis_bch_iterator
           (2, 0, 0) (0, 2, 0) 1 0 (0, 0, 2)); [lia|reflexivity].
Defined.

(** The Heisenberg parent with a generator that never stops. *)
Lemma bch_endless_generator_witness :
  in_Nilpotent heisenberg = true
  /\ answer (bch heisenberg cross_bch_iterator 1000 (2, 0, 0) (0, 2, 0) None)
     = Unfinished.
Proof.
  split; [reflexivity|].
  apply (@bch_endless_generator _ heisenberg cross_bch_iterator
           (2, 0, 0) (0, 2, 0)
           (fun k => match k with O => vadd (2, 0, 0) (0, 2, 0) | S _ => (0, 0, 0) end));
    reflexivity.
Defined.

(** Precision 7 on the two terms of the Heisenberg parent. *)
Lemma bch_prec_past_end_witness :
  heis_bch_iterator (2, 0, 0) (0, 2, 0) = Finite [(2, 2, 0); (0, 0, 2)]
  /\ bch heisenberg heis_bch_iterator 0 (2, 0, 0) (0, 2, 0) (Some 7)
     = {| answer := Ok (2, 2, 2); taken := 2 |}.
Proof.
  split; [reflexivity|].
  apply (@bch_prec_past_end _ heisenberg heis_bch_iterator
           (2, 0, 0) (0, 2, 0) [(2, 2, 0); (0, 0, 2)] 7 0);
    [reflexivity|simpl; lia].
Defined.

(** The product space as one operand and an element as the other. *)
Lemma bracket_mixed_either_order_witness :
  bracket heisenberg heis_product_space heis_product_space
    (LieAlgebraLike [(0, 0, 1)]) (Element (1, 0, 0))
  = bracket heisenberg heis_product_space heis_product_space
      (Element (1, 0, 0)) (LieAlgebraLike [(0, 0, 1)]).
Proof.
  apply (@bracket_mixed_either_order _ heisenberg heis_product_space
           heis_product_space (LieAlgebraLike [(0, 0, 1)]) (Element (1, 0, 0))).
  reflexivity.
Defined.

Lemma bracket_mixed_default_ideal_witness :
  bracket heisenberg heis_product_space (default_ideal heisenberg)
    (Integer 0) (LieAlgebraLike [(0, 0, 1)])
  = Raise (NotImplementedError "ideals not yet implemented: see #16824").
Proof.
  apply (@bracket_mixed_default_ideal _ heisenberg heis_product_space
           (Integer 0) (LieAlgebraLike [(0, 0, 1)])).
  reflexivity.
Defined.

(** The abelian parent: a bracket of sums and brackets of generators. *)
Lemma is_abelian_on_generated_witness :
  is_abelian abelian3 = Ok true
  /\ _bracket_ abelian3
       (vadd (1, 0, 0) (0, 1, 0))
       (_bracket_ abelian3 (0, 0, 1) (vneg (1, 0, 0)))
     = (0, 0, 0).
Proof.
  split; [reflexivity|].
  apply (@is_abelian_on_generated _ abelian3
           [(1, 0, 0); (0, 1, 0); (0, 0, 1)]
           abelian3_additive_group abelian3_biadditive veq_zero
           eq_refl eq_refl).
  - apply (@generated_add _ abelian3); apply generated_gen; simpl; auto.
  - apply (@generated_bracket _ abelian3).
    + apply generated_gen; simpl; auto.
    + apply (@generated_neg _ abelian3). apply generated_gen; simpl; auto.
Defined.

(** The three self-tests on the basis of the Heisenberg parent. *)
Lemma _test_jacobi_identity_spec_witness :
  converts heisenberg
  /\ decides_zero heisenberg
  /\ (_test_jacobi_identity heisenberg heis_product_space
        (default_ideal heisenberg) [(1, 0, 0); (0, 1, 0); (0, 0, 1)] = Passes
      <-> (forall x y z : vec,
             In x [(1, 0, 0); (0, 1, 0); (0, 0, 1)] ->
             In y [(1, 0, 0); (0, 1, 0); (0, 0, 1)] ->
             In z [(1, 0, 0); (0, 1, 0); (0, 0, 1)] ->
             veq x y = false ->
             jacobi_sum heisenberg x y z = (0, 0, 0))).
Proof.
  split; [exact heisenberg_converts|]. split; [exact veq_zero|].
  apply (proj1 (@_test_jacobi_identity_spec _ heisenberg heis_product_space
                  (default_ideal heisenberg) [(1, 0, 0); (0, 1, 0); (0, 0, 1)]
                  heisenberg_converts veq_zero)).
Defined.

Lemma _test_jacobi_identity_all_triples_witness :
  _test_jacobi_identity heisenberg heis_product_space
    (default_ideal heisenberg) [(1, 0, 0); (0, 1, 0); (0, 0, 1)] = Passes
  /\ jacobi_sum heisenberg (1, 0, 0) (1, 0, 0) (0, 1, 0) = (0, 0, 0).
Proof.
  split; [reflexivity|].
  apply (@_test_jacobi_identity_all_triples _ heisenberg heis_product_space
           (default_ideal heisenberg) [(1, 0, 0); (0, 1, 0); (0, 0, 1)]
           heisenberg_additive_group heisenberg_biadditive
           heisenberg_alternating heisenberg_converts veq_eq eq_refl);
    simpl; auto.
Defined.

Lemma _test_antisymmetry_spec_witness :
  converts heisenberg
  /\ decides_zero heisenberg
  /\ (_test_antisymmetry heisenberg heis_product_space
        (default_ideal heisenberg) [(1, 0, 0); (1, 1, 0)] = Passes
      <-> (forall x : vec, In x [(1, 0, 0); (1, 1, 0)] ->
                           heis_bracket x x = (0, 0, 0))).
Proof.
  split; [exact heisenberg_converts|]. split; [exact veq_zero|].
  apply (proj1 (@_test_antisymmetry_spec _ heisenberg heis_product_space
                  (default_ideal heisenberg) [(1, 0, 0); (1, 1, 0)]
                  heisenberg_converts veq_zero)).
Defined.

Lemma _test_distributivity_spec_witness :
  converts heisenberg
  /\ decides_eq heisenberg
  /\ (_test_distributivity heisenberg heis_product_space
        (default_ideal heisenberg) first_triples [(1, 0, 0); (0, 1, 0)] 5 = Passes
      <-> (forall x y z : vec,
             In (x, y, z) (first_triples [(1, 0, 0); (0, 1, 0)] 5) ->
             heis_bracket x (vadd y z) = vadd (heis_bracket x y) (heis_bracket x z)
             /\ heis_bracket (vadd x y) z
                = vadd (heis_bracket x z) (heis_bracket y z))).
Proof.
  split; [exact heisenberg_converts|]. split; [exact veq_eq|].
  apply (@_test_distributivity_spec _ heisenberg heis_product_space
           (default_ideal heisenberg) first_triples [(1, 0, 0); (0, 1, 0)] 5
           heisenberg_converts veq_eq).
Defined.

(** Three accesses on a parent whose enveloping algebra can be built, and
    on one where it cannot. *)
Lemma lift_constructed_once_witness :
  [get_universal_enveloping_algebra; get_lift; get_lift] <> []
  /\ run heisenberg (Ok "U(h)")
       [get_universal_enveloping_algebra; get_lift; get_lift] (fresh span string)
     = ([Ok "U(h)"; Ok "U(h)"; Ok "U(h)"],
        {| lift_attribute := Some {| domain := heisenberg; codomain := "U(h)" |};
           coercions := [{| domain := heisenberg; codomain := "U(h)" |}];
           UEA_calls := 1 |}).
Proof.
  split; [discriminate|].
  apply (@lift_constructed_once _ heisenberg string (Ok "U(h)") "U(h)"
           [get_universal_enveloping_algebra; get_lift; get_lift] eq_refl).
  discriminate.
Defined.

Lemma lift_failure_leaves_nothing_witness :
  run cross (Raise (NotImplementedError "_construct_UEA"))
    [get_lift; get_universal_enveloping_algebra] (fresh span string)
  = ([Raise (NotImplementedError "_construct_UEA");
      Raise (NotImplementedError "_construct_UEA")],
     {| lift_attribute := None; coercions := []; UEA_calls := 2 |}).
Proof.
  apply (@lift_failure_leaves_nothing _ cross string
           (Raise (NotImplementedError "_construct_UEA"))
           (NotImplementedError "_construct_UEA")
           [get_lift; get_universal_enveloping_algebra] eq_refl).
Defined.

(** The constructor's errors on the docstring inputs. *)
Lemma __init___errors_witness :
  is_finite RR = false
  /\ __init__ (Code C_7_3_GF16) RR
     = Raise (ValueError "subfield has to be a finite field")
  /\ ~ (3 | 4)
  /\ __init__ (Code C_7_3_GF16) (GF 2 3 "a")
     = Raise (ValueError
         "subfield has to be a subfield of the base field of the original code").
Proof.
  assert (H34 : ~ (3 | 4)) by (intros [q Hq]; lia).
  split; [reflexivity|]. split; [|split; [exact H34|]].
  - apply (proj1 (proj2 (@__init___errors C_7_3_GF16 RR "" 2 3 4))).
    reflexivity.
  - apply (proj2 (proj2 (@__init___errors C_7_3_GF16 (GF 2 3 "a") "" 2 3 4)));
      try lia; try reflexivity. exact H34.
Defined.

Lemma __init___attributes_witness :
  __init__ (Code C_7_3_GF16) (GF 2 2 "a") = Ok (Cs "a")
  /\ Code C_7_3_GF16 = Code (original_code (Cs "a"))
  /\ sub_base_field (Cs "a") = GF 2 2 "a"
  /\ is_finite (GF 2 2 "a") = true
  /\ sub_length (Cs "a") = length (original_code (Cs "a"))
  /\ default_encoder_name (Cs "a") = "ParityCheck"
  /\ default_decoder_name (Cs "a") = "Syndrome".
Proof.
  split; [reflexivity|].
  apply (@__init___attributes (Code C_7_3_GF16) (GF 2 2 "a") (Cs "a")).
  reflexivity.
Defined.

(** [GF(4)] inside [GF(16)]: the bounds are [-1] and [3]. *)
Lemma dimension_bounds_ordered_witness :
  __init__ (Code C_7_3_GF16) (GF 2 2 "a") = Ok (Cs "a")
  /\ exists lower : Z,
       dimension_lower_bound (Cs "a") = Some lower
       /\ lower <= dimension_upper_bound (Cs "a").
Proof.
  split; [reflexivity|].
  apply (@dimension_bounds_ordered C_7_3_GF16 (GF 2 2 "a") (Cs "a") 2 2 4);
    try lia; try reflexivity. simpl. lia.
Defined.

(** [GF(16)] as a subfield of itself: the lower bound is 7, the upper
    bound 3. *)
Lemma dimension_lower_bound_same_order_witness :
  __init__ (Code C_7_3_GF16) (GF 2 4 "aa")
  = Ok {| _original_code := C_7_3_GF16;
          sub_base_field := GF 2 4 "aa";
          sub_length := 7;
          default_encoder_name := "ParityCheck";
          default_decoder_name := "Syndrome" |}
  /\ dimension_lower_bound
       {| _original_code := C_7_3_GF16;
          sub_base_field := GF 2 4 "aa";
          sub_length := 7;
          default_encoder_name := "ParityCheck";
          default_decoder_name := "Syndrome" |} = Some 7
  /\ (3 < 7 ->
      dimension_upper_bound
        {| _original_code := C_7_3_GF16;
           sub_base_field := GF 2 4 "aa";
           sub_length := 7;
           default_encoder_name := "ParityCheck";
           default_decoder_name := "Syndrome" |} < 7).
Proof.
  split; [reflexivity|].
  apply (@dimension_lower_bound_same_order C_7_3_GF16 (GF 2 4 "aa") _ 2 4);
    try lia; reflexivity.
Defined.

Lemma code_eqb_eq (C D : LinearCode) : code_eqb C D = true <-> C = D.
Proof.
  destruct C as [[f c o v] n k], D as [[f' c' o' v'] n' k'].
  unfold code_eqb, field_eqb. cbn [base_field length dimension is_finite
    characteristic order variable_name].
  rewrite !andb_true_iff, !Z.eqb_eq, Bool.eqb_true_iff, String.eqb_eq.
  split.
  - intros [[[[[-> ->] ->] ->] ->] ->]. reflexivity.
  - intros H. injection H as -> -> -> -> -> ->. repeat split.
Qed.

(** [==] with the field-wise equality of codes. *)
Lemma __eq___equivalence_witness :
  (forall C, code_eqb C C = true)
  /\ __eq__ code_eqb (Cs "a") (Subcode (Cs "a")) = true
  /\ (__eq__ code_eqb (Cs "a") (Subcode (Cs "b")) = true ->
      __eq__ code_eqb (Cs "b") (Subcode (Cs "a")) = true)
  /\ __eq__ code_eqb (Cs "a") (NotASubcode "7") = false.
Proof.
  assert (Hrefl : forall C, code_eqb C C = true)
    by (intros C; now apply code_eqb_eq).
  assert (Hsym : forall C D, code_eqb C D = true -> code_eqb D C = true)
    by (intros C D H; apply code_eqb_eq; symmetry; now apply code_eqb_eq).
  assert (Htrans : forall C D E, code_eqb C D = true -> code_eqb D E = true ->
                                 code_eqb C E = true).
  { intros C D E H1 H2. apply code_eqb_eq.
    apply code_eqb_eq in H1, H2. congruence. }
  destruct (@__eq___equivalence code_eqb Hrefl Hsym Htrans)
    as (H1 & H2 & _ & H4).
  split; [exact Hrefl|]. split; [apply H1|]. split; [apply H2|apply H4].
Defined.

End MoreExamplesFacts.
